(** * fosite: the OAuth2 authorize endpoint (authorize.go)

    A shallow embedding of [authorize.go]: redirect URI resolution,
    the authorize request builder, the response type dispatcher and the
    two response writers.

    Go strings are byte strings ([string], [String.length] is Go's [len]).
    A Go [map[string][]string] ([url.Values], [http.Header]) is a
    [gmap string (list string)].  A nil-able pointer or interface is an
    [option].  A function that returns either a value or an error is a
    sum ([inl] the value, [inr] the error); [NewAuthorizeRequest], which
    returns its request next to the error, keeps Go's pair, with
    [option error] for the error ([None] is nil).

    The functions of net/url, net/http, govalidator, go-errors and
    ory-am/common that [authorize.go] calls are not part of the repository;
    they are the [Variable]s of [Section Authorize]. *)

From Stdlib Require Import Ascii String ZArith.
From stdpp Require Import gmap strings list fin_maps sorting.

Open Scope string_scope.

(** ** Errors *)

(** Modelled from the spec: the error singletons of errors.go (section 7,
    "Error kinds").  [ErrOther] stands for any error value a handler
    makes up itself; [StackError] is the [errors.Error] of go-errors,
    which carries the error it wraps.  Go compares error values by
    identity, which is equality of constructors here. *)
Inductive error : Type :=
| ErrInvalidRequest
| ErrInvalidClient
| ErrInvalidState
| ErrInvalidResponseType
| ErrNoResponseTypeHandlerFound
| ErrOther (msg : string)
| StackError (cause : error).

Fixpoint error_eqb (a b : error) : bool :=
  match a, b with
  | ErrInvalidRequest, ErrInvalidRequest => true
  | ErrInvalidClient, ErrInvalidClient => true
  | ErrInvalidState, ErrInvalidState => true
  | ErrInvalidResponseType, ErrInvalidResponseType => true
  | ErrNoResponseTypeHandlerFound, ErrNoResponseTypeHandlerFound => true
  | ErrOther m, ErrOther n => String.eqb m n
  | StackError c, StackError d => error_eqb c d
  | _, _ => false
  end.

(** go-errors [errors.New(e)]: always a new [errors.Error] around [e],
    together with the stack. *)
Definition errors_New (e : error) : error := StackError e.

(** go-errors [errors.Wrap(e, skip)]: an [errors.Error] is returned as it
    is, any other error is wrapped; the number of skipped frames only
    shapes the recorded stack. *)
Definition errors_Wrap (e : error) (skip : nat) : error :=
  match e with
  | StackError _ => e
  | _ => StackError e
  end.

(** go-errors [Is]: the error itself or the one it wraps. *)
Fixpoint errors_Is (e original : error) : bool :=
  error_eqb e original ||
  match e with
  | StackError c => errors_Is c original
  | _ => false
  end.

(** ** net/url and net/http data *)

(** [url.URL]: the fields of the struct. *)
Record URL : Type := mkURL {
  Scheme : string;
  Opaque : string;
  User : string;
  Host : string;
  Path : string;
  RawQuery : string;
  Fragment : string
}.

(** [url.Values.Get]: the first value of the key, or the empty string. *)
Definition Values_Get (v : gmap string (list string)) (key : string) : string :=
  match v !! key with
  | Some (x :: _) => x
  | _ => ""
  end.

(** [url.Values.Add]: appends the value to the key's list. *)
Definition Values_Add (key value : string) (v : gmap string (list string))
  : gmap string (list string) :=
  <[key := (default [] (v !! key) ++ [value])%list]> v.

(** [strings.Split(s, " ")]: the pieces between single spaces; the empty
    string splits into one empty piece. *)
Fixpoint strings_Split_space (s : string) : list string :=
  match s with
  | EmptyString => [""]
  | String c rest =>
      if Ascii.eqb c " "%char then "" :: strings_Split_space rest
      else match strings_Split_space rest with
           | piece :: pieces => String c piece :: pieces
           | [] => [String c ""]
           end
  end.

(** ** Repository types that authorize.go uses *)

(** Modelled from the spec: the [Client] interface of the client package
    (section 3: an opaque id and the ordered sequence of registered
    redirect URIs). *)
Record Client : Type := mkClient {
  GetID : string;
  GetRedirectURIs : list string
}.

(** Modelled from the spec: the [AuthorizeRequest] struct (section 3),
    with the field names [NewAuthorizeRequest] assigns.  A field the
    builder has not reached keeps Go's zero value. *)
Record AuthorizeRequest : Type := mkAuthorizeRequest {
  RequestedAt : Z;
  Client_ : option Client;
  RedirectURI : option URL;
  ResponseTypes : list string;
  State : string;
  Scopes : list string
}.

(** Modelled from the spec: [StringInSlice] of helper.go, "exact string
    comparison, not normalized" against the entries of the slice. *)
Fixpoint StringInSlice (needle : string) (haystack : list string) : bool :=
  match haystack with
  | [] => false
  | b :: rest => if String.eqb b needle then true else StringInSlice needle rest
  end.

(** Modelled from the spec: [removeEmpty] of helper.go, "discarding empty
    tokens". *)
Definition removeEmpty (args : list string) : list string :=
  filter (fun v => v ≠ "") args.

(** Modelled from the spec: the client store (section 6,
    "getClient(id)"); [inr] is a non-nil error. *)
Record Storage : Type := mkStorage {
  GetClient : string -> Client + error
}.

(** Modelled from the spec: [Has] of the response type list, membership
    of a string in the ordered set of requested response types. *)
Definition Arguments_Has (args : list string) (item : string) : bool :=
  StringInSlice item args.

(** A pointer to a [url.URL] in the store the writers run on. *)
Definition loc : Type := nat.

(** Modelled from the spec: the [AuthorizeRequester] interface, as what
    its methods return.  [GetRedirectURI] hands out the pointer the
    request holds ([None] is nil), the same at every call, so that a
    write through it is seen by the next call. *)
Record AuthorizeRequester : Type := mkAuthorizeRequester {
  GetResponseTypes : list string;
  GetRedirectURI : option loc;
  IsRedirectURIValid : bool
}.

(** Modelled from the spec: the [AuthorizeResponse] struct behind the
    [AuthorizeResponder] interface (section 3: accumulated query
    parameters and accumulated header key/value pairs). *)
Record AuthorizeResponse : Type := mkAuthorizeResponse {
  GetHeader : gmap string (list string);
  GetQuery : gmap string (list string)
}.

(** Modelled from the spec: the RFC-mapped error (section 3: a wire
    identifier and a description). *)
Record RFC6749Error : Type := mkRFC6749Error {
  Name : string;
  Description : string
}.

(** [http.ResponseWriter] as a recorder: the header map [Header()]
    returns, the status codes passed to [WriteHeader] in the order of the
    calls, and the chunks written to the body. *)
Record ResponseWriter : Type := mkResponseWriter {
  Header : gmap string (list string);
  WriteHeaderCalls : list Z;
  Body : list string
}.

Definition minStateLength : nat := 8.



(** [strings.Contains(s, " ")]: used to state what the split tokens of
    a built request look like. *)
Fixpoint containsSpace (s : string) : bool :=
  match s with
  | EmptyString => false
  | String c rest => Ascii.eqb c " "%char || containsSpace rest
  end.


(** ** The code on small inputs *)

Example Split_two : strings_Split_space "a b" = ["a"; "b"].
Proof. reflexivity. Qed.

Example Split_empty : strings_Split_space "" = [""].
Proof. reflexivity. Qed.

Example removeEmpty_gaps : removeEmpty (strings_Split_space " a  b ") = ["a"; "b"].
Proof. reflexivity. Qed.

Example Values_Get_first :
  Values_Get {[ "k" := ["x"; "y"] ]} "k" = "x" /\ Values_Get ∅ "k" = "".
Proof. split; reflexivity. Qed.

Example errors_New_twice :
  errors_New (errors_New ErrInvalidRequest)
  = StackError (StackError ErrInvalidRequest) /\
  errors_Wrap (errors_New ErrInvalidRequest) 0 = StackError ErrInvalidRequest.
Proof. split; reflexivity. Qed.

(** ** A small instance of the library functions

    The examples at the end of the file run the code on these: a parser
    that only cuts the fragment off, an encoder that joins key=value
    pairs in key order without escaping, a request that is its own form,
    and a JSON writer that records the error name. *)
Module Sample.

Fixpoint cutFragment (s : string) : string * string :=
  match s with
  | EmptyString => ("", "")
  | String c rest =>
      if Ascii.eqb c "#"%char then ("", rest)
      else (String c (fst (cutFragment rest)), snd (cutFragment rest))
  end.

Definition Parse (rawurl : string) : option URL :=
  Some {| Scheme := ""; Opaque := fst (cutFragment rawurl); User := ""; Host := "";
          Path := ""; RawQuery := ""; Fragment := snd (cutFragment rawurl) |}.

Definition URLString (u : URL) : string :=
  Opaque u ++ (if String.eqb (RawQuery u) "" then "" else "?" ++ RawQuery u)
  ++ (if String.eqb (Fragment u) "" then "" else "#" ++ Fragment u).

Definition QueryUnescape (s : string) : option string := Some s.

Definition ParseQuery (raw : string) : gmap string (list string) := ∅.

Definition Encode (v : gmap string (list string)) : string :=
  String.concat "&"
    (flat_map (fun kv => map (fun x => fst kv ++ "=" ++ x) (snd kv))
       (merge_sort (fun a b => Is_true (String.leb (fst a) (fst b)))
          (map_to_list v))).

Definition IsRequestURL (rawurl : string) : bool := String.prefix "https://" rawurl.

Definition Request : Type := gmap string (list string).

Definition ParseForm (r : Request) : option (gmap string (list string)) := Some r.

Definition CanonicalMIMEHeaderKey (key : string) : string := key.

Definition WriteJSON (rw : ResponseWriter) (e : RFC6749Error) : ResponseWriter :=
  {| Header := Header rw; WriteHeaderCalls := WriteHeaderCalls rw;
     Body := (Body rw ++ [Name e])%list |}.

Definition ErrorToRFC6749Error (e : error) : RFC6749Error :=
  if errors_Is e ErrInvalidState
  then {| Name := "invalid_state"; Description := "the state is missing or too short" |}
  else {| Name := "invalid_request"; Description := "the request is malformed" |}.

(** Scenario 1 of the spec: client c1 with one registered redirect URI. *)
Definition c1 : Client :=
  {| GetID := "c1"; GetRedirectURIs := ["https://app.example/cb"] |}.

(** Scenario 4 of the spec: the registered redirect URI has a fragment. *)
Definition c4 : Client :=
  {| GetID := "c4"; GetRedirectURIs := ["https://app.example/cb#frag"] |}.

Definition store : Storage :=
  {| GetClient := fun id =>
       if String.eqb id "c1" then inl c1
       else if String.eqb id "c4" then inl c4
       else inr (ErrOther "not found") |}.

Definition form (redirect_uri state : string) : Request :=
  {[ "client_id" := ["c1"]; "redirect_uri" := [redirect_uri];
     "response_type" := ["code"]; "state" := [state]; "scope" := ["a b"] ]}.



Definition rw0 : ResponseWriter :=
  {| Header := ∅; WriteHeaderCalls := []; Body := [] |}.

(** A handler that is always responsible: it writes code=xyz into the
    response. *)
Definition GrantHandler (_ : unit) (resp : AuthorizeResponse)
  (_ : AuthorizeRequester) (_ : Request) (_ : unit)
  : AuthorizeResponse * option error :=
  ({| GetHeader := GetHeader resp;
      GetQuery := Values_Add "code" "xyz" (GetQuery resp) |}, None).

(** A handler that is responsible only for the response type token and
    never writes. *)
Definition TokenHandler (_ : unit) (resp : AuthorizeResponse)
  (ar : AuthorizeRequester) (_ : Request) (_ : unit)
  : AuthorizeResponse * option error :=
  if Arguments_Has (GetResponseTypes ar) "token" then (resp, None)
  else (resp, Some ErrInvalidResponseType).

(** A handler that fails with an error of its own. *)
Definition BrokenHandler (_ : unit) (resp : AuthorizeResponse)
  (_ : AuthorizeRequester) (_ : Request) (_ : unit)
  : AuthorizeResponse * option error :=
  (resp, Some (ErrOther "storage unavailable")).

(** A request for response type code whose redirect URI is at address 0
    of the store, and one whose redirect URI was never set. *)
Definition ar0 : AuthorizeRequester :=
  {| GetResponseTypes := ["code"]; GetRedirectURI := Some 0;
     IsRedirectURIValid := true |}.

Definition arInvalid : AuthorizeRequester :=
  {| GetResponseTypes := []; GetRedirectURI := None; IsRedirectURIValid := false |}.

Definition cb : URL :=
  {| Scheme := ""; Opaque := "https://app.example/cb"; User := ""; Host := "";
     Path := ""; RawQuery := ""; Fragment := "" |}.

End Sample.

Section Authorize.

Set Default Proof Using "Type".

(** *** The library functions authorize.go calls *)

(** [url.Parse]: [None] is a non-nil error. *)
Variable url_Parse : string -> option URL.
(** [String] method of [url.URL]. *)
Variable URL_String : URL -> string.
(** [url.QueryUnescape]. *)
Variable url_QueryUnescape : string -> option string.
(** [url.ParseQuery], as the [Query] method of [url.URL] uses it: errors are dropped. *)
Variable url_ParseQuery : string -> gmap string (list string).
(** [url.Values.Encode]. *)
Variable Values_Encode : gmap string (list string) -> string.
(** [govalidator.IsRequestURL]. *)
Variable IsRequestURL : string -> bool.

(** The [Query] method of [url.URL]. *)
Definition URL_Query (u : URL) : gmap string (list string) :=
  url_ParseQuery (RawQuery u).

(** *** Redirect URI resolution *)

Definition IsValidRedirectURI (redirectURI : URL) : bool :=
  if negb (IsRequestURL (URL_String redirectURI)) then false
  else if negb (String.eqb (Fragment redirectURI) "") then false
  else true.

Definition MatchRedirectURIWithClientRedirectURIs (rawurl : string) (client : Client)
  : URL + error :=
  let fail := inr (errors_New ErrInvalidRequest) in
  if String.eqb rawurl "" && Nat.eqb (length (GetRedirectURIs client)) 1 then
    match url_Parse (hd "" (GetRedirectURIs client)) with
    | Some redirectURIFromClient =>
        if IsValidRedirectURI redirectURIFromClient
        then inl redirectURIFromClient
        else fail
    | None => fail
    end
  else if negb (String.eqb rawurl "") && StringInSlice rawurl (GetRedirectURIs client) then
    match url_Parse rawurl with
    | Some parsed => if IsValidRedirectURI parsed then inl parsed else fail
    | None => fail
    end
  else fail.

Definition GetRedirectURIFromRequestValues (values : gmap string (list string))
  : string + error :=
  match url_QueryUnescape (Values_Get values "redirect_uri") with
  | None => inr (errors_Wrap ErrInvalidRequest 0)
  | Some redirectURI => inl redirectURI
  end.

(** *** The authorize request builder *)

(** [http.Request], and [r.ParseForm()] followed by a read of [r.Form]:
    [None] when parsing fails. *)
Variable Request : Type.
Variable ParseForm : Request -> option (gmap string (list string)).

(** [context.Context] and the session value handed to the handlers. *)
Variable Context : Type.
Variable Session : Type.

(** [HandleResponseType(ctx, resp, ar, r, session)]: the handler may
    write into the shared response [resp]; the response after the call
    is returned next to the error. *)
Definition ResponseTypeHandler : Type :=
  Context -> AuthorizeResponse -> AuthorizeRequester -> Request -> Session ->
  AuthorizeResponse * option error.

(** The [Fosite] struct: the fields authorize.go reads. *)
Record Fosite : Type := mkFosite {
  Store : Storage;
  ResponseTypeHandlers : list ResponseTypeHandler
}.

(** The request the builder starts from: only the timestamp is set. *)
Definition emptyRequest (now : Z) : AuthorizeRequest :=
  {| RequestedAt := now; Client_ := None; RedirectURI := None;
     ResponseTypes := []; State := ""; Scopes := [] |}.



(** [now] is what [time.Now()] returns.  The result is Go's pair: the
    request pointer ([Some] when not nil) and the error. *)
Definition NewAuthorizeRequest (c : Fosite) (now : Z) (r : Request)
  : option AuthorizeRequest * option error :=
  let request := emptyRequest now in
  match ParseForm r with
  | None => (Some request, Some (errors_New ErrInvalidRequest))
  | Some form =>
  match GetClient (Store c) (Values_Get form "client_id") with
  | inr _ => (Some request, Some (errors_New ErrInvalidClient))
  | inl client =>
  let request :=
    {| RequestedAt := RequestedAt request; Client_ := Some client;
       RedirectURI := RedirectURI request; ResponseTypes := ResponseTypes request;
       State := State request; Scopes := Scopes request |} in
  match GetRedirectURIFromRequestValues form with
  | inr _ => (Some request, Some (errors_New ErrInvalidRequest))
  | inl rawRedirURI =>
  match MatchRedirectURIWithClientRedirectURIs rawRedirURI client with
  | inr _ => (Some request, Some (errors_New ErrInvalidRequest))
  | inl redirectURI =>
  if negb (IsValidRedirectURI redirectURI)
  then (Some request, Some (errors_New ErrInvalidRequest))
  else
  let responseTypes :=
    removeEmpty (strings_Split_space (Values_Get form "response_type")) in
  let request :=
    {| RequestedAt := RequestedAt request; Client_ := Client_ request;
       RedirectURI := Some redirectURI; ResponseTypes := responseTypes;
       State := State request; Scopes := Scopes request |} in
  let state := Values_Get form "state" in
  if String.eqb state "" then (Some request, Some (errors_New ErrInvalidState))
  else if Nat.ltb (String.length state) minStateLength
  then (Some request, Some (errors_New ErrInvalidState))
  else
  let request :=
    {| RequestedAt := RequestedAt request; Client_ := Client_ request;
       RedirectURI := RedirectURI request; ResponseTypes := ResponseTypes request;
       State := state;
       Scopes := removeEmpty (strings_Split_space (Values_Get form "scope")) |} in
  (Some request, None)
  end end end end.

(** *** The response type dispatcher *)

(** The [for] loop of [NewAuthorizeResponse].  The first component is
    the list of what each invoked handler returned, in the order of the
    calls; the second is [inr err] when the loop returned early and
    otherwise the response and the [found] flag after the last handler. *)
Fixpoint handlersLoop (hs : list ResponseTypeHandler) (ctx : Context)
  (ar : AuthorizeRequester) (r : Request) (session : Session)
  (resp : AuthorizeResponse) (found : bool)
  : list (option error) * (AuthorizeResponse * bool + error) :=
  match hs with
  | [] => ([], inl (resp, found))
  | h :: rest =>
      let '(resp', err) := h ctx resp ar r session in
      match err with
      | None =>
          let '(calls, out) := handlersLoop rest ctx ar r session resp' true in
          (None :: calls, out)
      | Some e =>
          if negb (error_eqb e ErrInvalidResponseType) then ([Some e], inr e)
          else
            let '(calls, out) := handlersLoop rest ctx ar r session resp' found in
            (Some e :: calls, out)
      end
  end.

(** The response [new(AuthorizeResponse)] allocates. *)
Definition newAuthorizeResponse : AuthorizeResponse :=
  {| GetHeader := ∅; GetQuery := ∅ |}.

Definition NewAuthorizeResponse (o : Fosite) (ctx : Context)
  (ar : AuthorizeRequester) (r : Request) (session : Session)
  : AuthorizeResponse + error :=
  match snd (handlersLoop (ResponseTypeHandlers o) ctx ar r session
               newAuthorizeResponse false) with
  | inr err => inr err
  | inl (resp, found) =>
      if negb found then inr ErrNoResponseTypeHandlerFound else inl resp
  end.

(** The handlers the loop called, as the list of their results. *)
Definition handlerCalls (o : Fosite) (ctx : Context)
  (ar : AuthorizeRequester) (r : Request) (session : Session)
  : list (option error) :=
  fst (handlersLoop (ResponseTypeHandlers o) ctx ar r session
         newAuthorizeResponse false).

(** The response after every handler of the chain has written into it. *)
Definition accumulated (o : list ResponseTypeHandler) (ctx : Context)
  (ar : AuthorizeRequester) (r : Request) (session : Session)
  (resp : AuthorizeResponse) : AuthorizeResponse :=
  foldl (fun acc h => fst (h ctx acc ar r session)) resp o.

(** What the handler at position [k] of a chain returns when it is
    called on the response the handlers before it have written into,
    starting from [resp]; [None] when the chain has no position [k]. *)
Definition returnAt (hs : list ResponseTypeHandler) (ctx : Context)
  (ar : AuthorizeRequester) (r : Request) (session : Session)
  (resp : AuthorizeResponse) (k : nat) : option (option error) :=
  match hs !! k with
  | Some h =>
      Some (snd (h ctx (accumulated (take k hs) ctx ar r session resp) ar r session))
  | None => None
  end.

(** The same for the chain of [o] and the fresh response of
    [NewAuthorizeResponse]. *)
Definition handlerReturn (o : Fosite) (ctx : Context)
  (ar : AuthorizeRequester) (r : Request) (session : Session) (k : nat)
  : option (option error) :=
  returnAt (ResponseTypeHandlers o) ctx ar r session newAuthorizeResponse k.

(** [HandleResponseType] of [CodeResponseTypeHandler] (package
    authorize): nil when the request asks for the response type "token",
    the not-responsible sentinel otherwise; the response is not written.
    The method takes camlistore's [context.Context] and the
    [http.Request] by value, not the context and the request pointer the
    dispatcher passes, so it is no [ResponseTypeHandler]. *)
Variable CamlistoreContext : Type.
Variable RequestValue : Type.

Definition CodeResponseTypeHandler_HandleResponseType (_ : CamlistoreContext)
  (resp : AuthorizeResponse) (ar : AuthorizeRequester) (_ : RequestValue)
  (session : Session) : AuthorizeResponse * option error :=
  if Arguments_Has (GetResponseTypes ar) "token" then (resp, None)
  else (resp, Some ErrInvalidResponseType).

(** *** The response writers *)

(** [textproto.CanonicalMIMEHeaderKey]. *)
Variable CanonicalMIMEHeaderKey : string -> string.
(** [pkg.WriteJSON] of ory-am/common. *)
Variable WriteJSON : ResponseWriter -> RFC6749Error -> ResponseWriter.
(** [ErrorToRFC6749Error] of errors.go. *)
Variable ErrorToRFC6749Error : error -> RFC6749Error.

(** [http.Header.Add] and [http.Header.Set] on the writer's header map. *)
Definition Header_Add (key value : string) (rw : ResponseWriter) : ResponseWriter :=
  {| Header := Values_Add (CanonicalMIMEHeaderKey key) value (Header rw);
     WriteHeaderCalls := WriteHeaderCalls rw; Body := Body rw |}.

Definition Header_Set (key value : string) (rw : ResponseWriter) : ResponseWriter :=
  {| Header := <[CanonicalMIMEHeaderKey key := [value]]> (Header rw);
     WriteHeaderCalls := WriteHeaderCalls rw; Body := Body rw |}.

Definition WriteHeader (code : Z) (rw : ResponseWriter) : ResponseWriter :=
  {| Header := Header rw;
     WriteHeaderCalls := (WriteHeaderCalls rw ++ [code])%list; Body := Body rw |}.

Definition StatusFound : Z := 302.

(** The assignment [u.RawQuery = raw] through a pointer to [u]. *)
Definition setRawQuery (raw : string) (u : URL) : URL :=
  {| Scheme := Scheme u; Opaque := Opaque u; User := User u; Host := Host u;
     Path := Path u; RawQuery := raw; Fragment := Fragment u |}.

(** The loop [for k, _ := range args { q.Add(k, args.Get(k)) }].  Go
    visits the keys of a map in no fixed order; every key is visited
    once, and [mergeQuery_lookup] shows the order does not matter. *)
Definition mergeQuery (q args : gmap string (list string)) : gmap string (list string) :=
  map_fold (fun k _ acc => Values_Add k (Values_Get args k) acc) q args.

(** The loops [for k, v := range header { for _, vv := range v {
    rw.Header().Add(k, vv) } }].  The fold visits the keys in one of the
    orders Go may take; the order shows only where two keys of the
    response have the same canonical form. *)
Definition copyHeader (header : gmap string (list string)) (rw : ResponseWriter)
  : ResponseWriter :=
  map_fold (fun k v acc => foldl (fun acc' vv => Header_Add k vv acc') acc v) rw header.

(** The writers run on a store of [url.URL] structs; [None] is the panic
    of a nil pointer dereference. *)
Definition WriteAuthorizeResponse (heap : gmap loc URL) (rw : ResponseWriter)
  (ar : AuthorizeRequester) (resp : AuthorizeResponse)
  : option (gmap loc URL * ResponseWriter) :=
  redir ← GetRedirectURI ar;
  u ← heap !! redir;
  let q := URL_Query u in
  let args := GetQuery resp in
  let q := mergeQuery q args in
  let heap := <[redir := setRawQuery (Values_Encode q) u]> heap in
  let header := GetHeader resp in
  let rw := copyHeader header rw in
  redir' ← GetRedirectURI ar;
  u' ← heap !! redir';
  let rw := Header_Set "Location" (URL_String u') rw in
  Some (heap, WriteHeader StatusFound rw).

Definition WriteAuthorizeError (heap : gmap loc URL) (rw : ResponseWriter)
  (ar : AuthorizeRequester) (err : error)
  : option (gmap loc URL * ResponseWriter) :=
  let rfcerr := ErrorToRFC6749Error err in
  if negb (IsRedirectURIValid ar) then Some (heap, WriteJSON rw rfcerr)
  else
    redirectURI ← GetRedirectURI ar;
    u ← heap !! redirectURI;
    let query := URL_Query u in
    let query := Values_Add "error" (Name rfcerr) query in
    let query := Values_Add "error_description" (Description rfcerr) query in
    let u := setRawQuery (Values_Encode query) u in
    let heap := <[redirectURI := u]> heap in
    let rw := Header_Add "Location" (URL_String u) rw in
    Some (heap, WriteHeader StatusFound rw).

(** ** Properties of redirect URI resolution *)

Lemma StringInSlice_elem_of (needle : string) (haystack : list string) :
  StringInSlice needle haystack = true <-> needle ∈ haystack.
Proof.
  induction haystack as [|b rest IH]; simpl.
  - split; [discriminate | intros H; inversion H].
  - destruct (String.eqb_spec b needle) as [->|Hne].
    + split; [intros _; apply list_elem_of_here | reflexivity].
    + rewrite IH. split.
      * intros H. now apply list_elem_of_further.
      * intros H. apply elem_of_cons in H as [H|H]; [congruence | exact H].
Qed.

Lemma IsValidRedirectURI_true (u : URL) :
  IsValidRedirectURI u = true <->
  IsRequestURL (URL_String u) = true /\ Fragment u = "".
Proof.
  unfold IsValidRedirectURI.
  destruct (IsRequestURL (URL_String u)); simpl.
  - destruct (String.eqb_spec (Fragment u) "") as [Heq|Hne]; simpl.
    + split; [intros _; split; [reflexivity | exact Heq] | reflexivity].
    + split; [discriminate | intros [_ Heq]; contradiction].
  - split; [discriminate | intros [Hreq _]; discriminate].
Qed.

Lemma IsValidRedirectURI_false (u : URL) :
  IsValidRedirectURI u = false <->
  Fragment u <> "" \/ IsRequestURL (URL_String u) = false.
Proof.
  unfold IsValidRedirectURI.
  destruct (IsRequestURL (URL_String u)); simpl.
  - destruct (String.eqb_spec (Fragment u) "") as [Heq|Hne]; simpl.
    + split; [discriminate | intros [Hne|Hreq]; [contradiction | discriminate]].
    + split; [intros _; left; exact Hne | reflexivity].
  - split; [intros _; right; reflexivity | reflexivity].
Qed.

(** Whatever resolution returns without an error is a valid URI. *)
Lemma Match_inl_valid (rawurl : string) (client : Client) (u : URL) :
  MatchRedirectURIWithClientRedirectURIs rawurl client = inl u ->
  IsValidRedirectURI u = true.
Proof.
  unfold MatchRedirectURIWithClientRedirectURIs.
  repeat case_match; intros Hres; try discriminate; congruence.
Qed.

(** The only error resolution returns. *)
Lemma Match_inr (rawurl : string) (client : Client) (e : error) :
  MatchRedirectURIWithClientRedirectURIs rawurl client = inr e ->
  e = errors_New ErrInvalidRequest.
Proof.
  unfold MatchRedirectURIWithClientRedirectURIs.
  repeat case_match; intros Hres; try discriminate; congruence.
Qed.

(** C1: a non-empty redirect_uri that is not, as a string, one of the
    client's registered redirect URIs is refused with InvalidRequest,
    whatever the URI parses to and whether or not it would be valid. *)
Theorem Match_unregistered_rejected (rawurl : string) (client : Client) :
  rawurl <> "" ->
  rawurl ∉ GetRedirectURIs client ->
  MatchRedirectURIWithClientRedirectURIs rawurl client
  = inr (errors_New ErrInvalidRequest).
Proof.
  intros Hne Hnotin. unfold MatchRedirectURIWithClientRedirectURIs.
  apply String.eqb_neq in Hne. rewrite Hne. simpl.
  destruct (StringInSlice rawurl (GetRedirectURIs client)) eqn:Hin.
  - apply StringInSlice_elem_of in Hin. contradiction.
  - reflexivity.
Qed.

(** C2: a redirect_uri that is literally one of the registered URIs is
    still refused with InvalidRequest when it does not parse, when its
    parsed form is no request URL with a scheme, or when its parsed form
    has a fragment. *)
Theorem Match_registered_invalid_rejected (rawurl : string) (client : Client) :
  rawurl ∈ GetRedirectURIs client ->
  (url_Parse rawurl = None \/
   exists u, url_Parse rawurl = Some u /\
             (Fragment u <> "" \/ IsRequestURL (URL_String u) = false)) ->
  MatchRedirectURIWithClientRedirectURIs rawurl client
  = inr (errors_New ErrInvalidRequest).
Proof.
  intros Hin Hbad. unfold MatchRedirectURIWithClientRedirectURIs.
  assert (Hparsed : match url_Parse rawurl with
                    | Some u => IsValidRedirectURI u = false
                    | None => True
                    end).
  { destruct Hbad as [->|(u & -> & Hu)]; [exact I|].
    now apply IsValidRedirectURI_false. }
  destruct (String.eqb_spec rawurl "") as [Hempty|Hfull]; simpl.
  - destruct (GetRedirectURIs client) as [|uri [|uri' rest]] eqn:Huris;
      simpl; try reflexivity.
    apply list_elem_of_singleton in Hin. subst uri.
    destruct (url_Parse rawurl); [now rewrite Hparsed | reflexivity].
  - destruct (StringInSlice rawurl (GetRedirectURIs client)); [|reflexivity].
    destruct (url_Parse rawurl); [now rewrite Hparsed | reflexivity].
Qed.

(** C3: with an empty redirect_uri, resolution returns the client's
    only registered URI when that URI parses to a request URL with a
    scheme and without a fragment; it fails with InvalidRequest when the
    client has no or several registered URIs, and when the only one does
    not parse or is not valid. *)
Theorem Match_empty_redirect_uri (client : Client) :
  (forall uri u,
      GetRedirectURIs client = [uri] ->
      url_Parse uri = Some u ->
      IsRequestURL (URL_String u) = true ->
      Fragment u = "" ->
      MatchRedirectURIWithClientRedirectURIs "" client = inl u) /\
  (length (GetRedirectURIs client) <> 1 ->
   MatchRedirectURIWithClientRedirectURIs "" client
   = inr (errors_New ErrInvalidRequest)) /\
  (forall uri,
      GetRedirectURIs client = [uri] ->
      (url_Parse uri = None \/
       exists u, url_Parse uri = Some u /\
                 (Fragment u <> "" \/ IsRequestURL (URL_String u) = false)) ->
      MatchRedirectURIWithClientRedirectURIs "" client
      = inr (errors_New ErrInvalidRequest)).
Proof.
  unfold MatchRedirectURIWithClientRedirectURIs. simpl. repeat split.
  - intros uri u -> Hparse Hreq Hfrag. simpl. rewrite Hparse.
    assert (IsValidRedirectURI u = true) as ->
      by now apply IsValidRedirectURI_true.
    reflexivity.
  - intros Hlen. apply Nat.eqb_neq in Hlen. now rewrite Hlen.
  - intros uri -> [Hparse|(u & Hparse & Hu)]; simpl; rewrite Hparse.
    + reflexivity.
    + apply IsValidRedirectURI_false in Hu. now rewrite Hu.
Qed.

(** ** Properties of the authorize request builder *)

(** The two tests on [state] together: empty, or shorter than the
    minimum. *)
Lemma state_tests (state : string) :
  (if String.eqb state "" then true
   else Nat.ltb (String.length state) minStateLength) = true <->
  String.length state < minStateLength.
Proof.
  unfold minStateLength.
  destruct (String.eqb_spec state "") as [->|Hne]; simpl.
  - split; [lia | reflexivity].
  - apply Nat.ltb_lt.
Qed.


(** A state of 8 bytes or more passes the state check, however many
    characters it has. *)
Lemma NewAuthorizeRequest_long_state (c : Fosite) (now : Z) (r : Request)
  (form : gmap string (list string)) (client : Client)
  (rawRedirURI : string) (redirectURI : URL) :
  ParseForm r = Some form ->
  GetClient (Store c) (Values_Get form "client_id") = inl client ->
  GetRedirectURIFromRequestValues form = inl rawRedirURI ->
  MatchRedirectURIWithClientRedirectURIs rawRedirURI client = inl redirectURI ->
  8 <= String.length (Values_Get form "state") ->
  snd (NewAuthorizeRequest c now r) = None.
Proof.
  intros Hform Hclient Hraw Hmatch Hlen. unfold NewAuthorizeRequest.
  rewrite Hform, Hclient, Hraw, Hmatch.
  rewrite (Match_inl_valid _ _ _ Hmatch). simpl negb. cbv iota.
  pose proof (state_tests (Values_Get form "state")) as Hstate.
  unfold minStateLength in Hstate.
  destruct (String.eqb (Values_Get form "state") "").
  - destruct Hstate as [Hstate _]. specialize (Hstate eq_refl). lia.
  - destruct (Nat.ltb (String.length (Values_Get form "state")) 8) eqn:Hlt.
    + destruct Hstate as [Hstate _]. specialize (Hstate eq_refl). lia.
    + unfold minStateLength. now rewrite Hlt.
Qed.



(** ** Properties of the response type dispatcher *)

Lemma error_eqb_eq (a b : error) : error_eqb a b = true <-> a = b.
Proof.
  revert b. induction a as [| | | | |m|c IH]; intros [| | | | |n|d]; simpl;
    try (split; [discriminate | congruence]); try tauto.
  - rewrite String.eqb_eq. split; congruence.
  - rewrite IH. split; congruence.
Qed.

Lemma error_eqb_sentinel (e : error) :
  negb (error_eqb e ErrInvalidResponseType) = true <-> e <> ErrInvalidResponseType.
Proof.
  rewrite negb_true_iff, <- not_true_iff_false. now rewrite error_eqb_eq.
Qed.

(** One step of the loop, by what the first handler returns. *)
Lemma handlersLoop_cons (h : ResponseTypeHandler) (rest : list ResponseTypeHandler)
  (ctx : Context) (ar : AuthorizeRequester) (r : Request) (session : Session)
  (resp : AuthorizeResponse) (found : bool) :
  handlersLoop (h :: rest) ctx ar r session resp found =
  match snd (h ctx resp ar r session) with
  | None =>
      let next := handlersLoop rest ctx ar r session
                    (fst (h ctx resp ar r session)) true in
      (None :: fst next, snd next)
  | Some e =>
      if negb (error_eqb e ErrInvalidResponseType) then ([Some e], inr e)
      else
        let next := handlersLoop rest ctx ar r session
                      (fst (h ctx resp ar r session)) found in
        (Some e :: fst next, snd next)
  end.
Proof.
  simpl. destruct (h ctx resp ar r session) as [resp' [e|]]; simpl.
  - destruct (negb (error_eqb e ErrInvalidResponseType)); [reflexivity|].
    now destruct (handlersLoop rest ctx ar r session resp' found).
  - now destruct (handlersLoop rest ctx ar r session resp' true).
Qed.

(** The k-th entry of the list of calls is what the k-th handler of the
    chain returned on the response the handlers before it left. *)
Lemma handlersLoop_lookup (hs : list ResponseTypeHandler)
  (ctx : Context) (ar : AuthorizeRequester) (r : Request) (session : Session)
  (resp : AuthorizeResponse) (found : bool) (k : nat) (c : option error) :
  fst (handlersLoop hs ctx ar r session resp found) !! k = Some c ->
  exists h, hs !! k = Some h /\
            snd (h ctx (accumulated (take k hs) ctx ar r session resp) ar r session) = c.
Proof.
  revert resp found k.
  induction hs as [|h rest IH]; intros resp found k; [discriminate|].
  rewrite handlersLoop_cons.
  destruct (snd (h ctx resp ar r session)) as [e|] eqn:Herr.
  - destruct (negb (error_eqb e ErrInvalidResponseType)); simpl;
      destruct k as [|k]; simpl.
    + intros [= <-]. eauto.
    + discriminate.
    + intros [= <-]. eauto.
    + apply IH.
  - simpl. destruct k as [|k]; simpl.
    + intros [= <-]. eauto.
    + apply IH.
Qed.

(** A traversal in which no handler returned a fatal error called every
    handler, and ends with the accumulated response; [found] is set when
    it was set before or some handler returned nil. *)
Lemma handlersLoop_nonfatal (hs : list ResponseTypeHandler)
  (ctx : Context) (ar : AuthorizeRequester) (r : Request) (session : Session)
  (resp : AuthorizeResponse) (found : bool) :
  (forall e, Some e ∈ fst (handlersLoop hs ctx ar r session resp found) ->
             e = ErrInvalidResponseType) ->
  length (fst (handlersLoop hs ctx ar r session resp found)) = length hs /\
  exists found',
    snd (handlersLoop hs ctx ar r session resp found)
    = inl (accumulated hs ctx ar r session resp, found') /\
    (found' = true <->
     found = true \/ None ∈ fst (handlersLoop hs ctx ar r session resp found)).
Proof.
  revert resp found. induction hs as [|h rest IH]; intros resp found.
  - simpl. intros _. split; [reflexivity|]. exists found. split; [reflexivity|].
    split; [auto|]. intros [?|Hin]; [assumption|inversion Hin].
  - rewrite handlersLoop_cons. unfold accumulated. simpl foldl.
    destruct (snd (h ctx resp ar r session)) as [e|] eqn:Herr.
    + destruct (negb (error_eqb e ErrInvalidResponseType)) eqn:Hfatal.
      * intros Hall. apply error_eqb_sentinel in Hfatal.
        exfalso. apply Hfatal, Hall. simpl. apply list_elem_of_here.
      * simpl. intros Hall.
        destruct (IH (fst (h ctx resp ar r session)) found)
          as (Hlen & found' & Hout & Hfound).
        { intros e' He'. apply Hall. now apply list_elem_of_further. }
        split; [now rewrite Hlen|]. exists found'. split; [exact Hout|].
        rewrite Hfound. split; intros [?|Hin]; auto.
        -- right. now apply list_elem_of_further.
        -- apply elem_of_cons in Hin as [?|?]; [discriminate|auto].
    + simpl. intros Hall.
      destruct (IH (fst (h ctx resp ar r session)) true)
        as (Hlen & found' & Hout & Hfound).
      { intros e' He'. apply Hall. now apply list_elem_of_further. }
      split; [now rewrite Hlen|]. exists found'. split; [exact Hout|].
      split.
      * intros _. right. apply list_elem_of_here.
      * intros _. apply Hfound. now left.
Qed.

(** A handler that returned a fatal error is the last one called, and
    its error is what the loop returns. *)
Lemma handlersLoop_fatal (hs : list ResponseTypeHandler)
  (ctx : Context) (ar : AuthorizeRequester) (r : Request) (session : Session)
  (resp : AuthorizeResponse) (found : bool) (i : nat) (e : error) :
  fst (handlersLoop hs ctx ar r session resp found) !! i = Some (Some e) ->
  e <> ErrInvalidResponseType ->
  snd (handlersLoop hs ctx ar r session resp found) = inr e /\
  length (fst (handlersLoop hs ctx ar r session resp found)) = S i.
Proof.
  revert resp found i.
  induction hs as [|h rest IH]; intros resp found i; [discriminate|].
  rewrite handlersLoop_cons.
  destruct (snd (h ctx resp ar r session)) as [e0|] eqn:Herr.
  - destruct (negb (error_eqb e0 ErrInvalidResponseType)) eqn:Hfatal; simpl;
      destruct i as [|i]; simpl.
    + intros [= <-] _. auto.
    + discriminate.
    + intros [= <-] Hne. apply negb_false_iff, error_eqb_eq in Hfatal.
      contradiction.
    + intros Hi Hne. destruct (IH _ _ _ Hi Hne) as [-> ->]. auto.
  - simpl. destruct i as [|i]; simpl; [discriminate|].
    intros Hi Hne. destruct (IH _ _ _ Hi Hne) as [-> ->]. auto.
Qed.

(** The handler at position k+1 of a chain is the handler at position
    k of its tail, called after the head has written. *)
Lemma returnAt_cons (h : ResponseTypeHandler) (rest : list ResponseTypeHandler)
  (ctx : Context) (ar : AuthorizeRequester) (r : Request) (session : Session)
  (resp : AuthorizeResponse) (k : nat) :
  returnAt (h :: rest) ctx ar r session resp (S k)
  = returnAt rest ctx ar r session (fst (h ctx resp ar r session)) k.
Proof. reflexivity. Qed.

(** Every entry of the list of calls is what the handler at that
    position returned. *)
Lemma handlersLoop_calls_returnAt (hs : list ResponseTypeHandler)
  (ctx : Context) (ar : AuthorizeRequester) (r : Request) (session : Session)
  (resp : AuthorizeResponse) (found : bool) (k : nat) (c : option error) :
  fst (handlersLoop hs ctx ar r session resp found) !! k = Some c ->
  returnAt hs ctx ar r session resp k = Some c.
Proof.
  intros Hk. destruct (handlersLoop_lookup _ _ _ _ _ _ _ _ _ Hk) as (h & Hh & Hc).
  unfold returnAt. now rewrite Hh, Hc.
Qed.

(** When no handler of the chain returns a fatal error, the list of
    calls is the list of what the handlers return, position by
    position. *)
Lemma handlersLoop_calls_all (hs : list ResponseTypeHandler)
  (ctx : Context) (ar : AuthorizeRequester) (r : Request) (session : Session)
  (resp : AuthorizeResponse) (found : bool) :
  (forall k e, returnAt hs ctx ar r session resp k = Some (Some e) ->
               e = ErrInvalidResponseType) ->
  (forall e, Some e ∈ fst (handlersLoop hs ctx ar r session resp found) ->
             e = ErrInvalidResponseType) /\
  (forall k, fst (handlersLoop hs ctx ar r session resp found) !! k
             = returnAt hs ctx ar r session resp k).
Proof.
  intros Hreturns.
  assert (Hcalls : forall e,
             Some e ∈ fst (handlersLoop hs ctx ar r session resp found) ->
             e = ErrInvalidResponseType).
  { intros e Hin. apply list_elem_of_lookup in Hin as [k Hk].
    apply (Hreturns k). now apply handlersLoop_calls_returnAt with found. }
  split; [exact Hcalls|]. intros k.
  destruct (handlersLoop_nonfatal hs ctx ar r session resp found Hcalls)
    as (Hlen & _).
  destruct (fst (handlersLoop hs ctx ar r session resp found) !! k)
    as [c|] eqn:Hk.
  - symmetry. now apply handlersLoop_calls_returnAt with found.
  - apply lookup_ge_None in Hk. rewrite Hlen in Hk.
    unfold returnAt. destruct (hs !! k) eqn:Hh; [|reflexivity].
    apply lookup_lt_Some in Hh.
    exfalso. exact (Nat.lt_irrefl _ (Nat.lt_le_trans _ _ _ Hh Hk)).
Qed.

(** The first handler that returns a fatal error is called, and its
    result is the entry of the list of calls at its position. *)
Lemma handlersLoop_first_fatal (hs : list ResponseTypeHandler)
  (ctx : Context) (ar : AuthorizeRequester) (r : Request) (session : Session)
  (resp : AuthorizeResponse) (found : bool) (i : nat) (e : error) :
  returnAt hs ctx ar r session resp i = Some (Some e) ->
  e <> ErrInvalidResponseType ->
  (forall k e', k < i -> returnAt hs ctx ar r session resp k = Some (Some e') ->
                e' = ErrInvalidResponseType) ->
  forall k, k <= i ->
            fst (handlersLoop hs ctx ar r session resp found) !! k
            = returnAt hs ctx ar r session resp k.
Proof.
  revert resp found i. induction hs as [|h rest IH]; intros resp found i.
  - discriminate.
  - intros Hi Hne Hbefore k Hk. rewrite handlersLoop_cons.
    destruct i as [|i].
    + assert (k = 0) as -> by lia.
      unfold returnAt in Hi. simpl in Hi. injection Hi as Hi.
      unfold returnAt. simpl. rewrite Hi.
      apply error_eqb_sentinel in Hne. now rewrite Hne.
    + rewrite returnAt_cons in Hi.
      assert (Hrest : forall k' e', k' < i ->
                returnAt rest ctx ar r session (fst (h ctx resp ar r session)) k'
                = Some (Some e') -> e' = ErrInvalidResponseType).
      { intros k' e' Hlt Hret. apply (Hbefore (S k')); [lia|].
        now rewrite returnAt_cons. }
      destruct (snd (h ctx resp ar r session)) as [e0|] eqn:Herr.
      * assert (e0 = ErrInvalidResponseType) as ->.
        { apply (Hbefore 0); [lia|]. unfold returnAt. simpl. now rewrite Herr. }
        simpl. destruct k as [|k].
        -- unfold returnAt. simpl. now rewrite Herr.
        -- simpl. rewrite returnAt_cons. apply (IH _ _ i); [assumption..|lia].
      * simpl. destruct k as [|k].
        -- unfold returnAt. simpl. now rewrite Herr.
        -- simpl. rewrite returnAt_cons. apply (IH _ _ i); [assumption..|lia].
Qed.

(** C5: when some handler of the chain returns nil and every handler
    returns nil or the not-responsible sentinel, the dispatcher returns
    the accumulated response and no error; when every handler of the
    chain returns the sentinel it returns NoResponseTypeHandlerFound;
    and when no handler returns a fatal error, every handler is called
    and the dispatcher fails, with NoResponseTypeHandlerFound, exactly
    when no handler returns nil.  What a handler returns is its result
    on the response the handlers before it have written into. *)
Theorem NewAuthorizeResponse_found (o : Fosite)
  (ctx : Context) (ar : AuthorizeRequester) (r : Request) (session : Session) :
  ((exists k, handlerReturn o ctx ar r session k = Some None) ->
   (forall k e, handlerReturn o ctx ar r session k = Some (Some e) ->
                e = ErrInvalidResponseType) ->
   NewAuthorizeResponse o ctx ar r session
   = inl (accumulated (ResponseTypeHandlers o) ctx ar r session
            newAuthorizeResponse)) /\
  ((forall k, k < length (ResponseTypeHandlers o) ->
              handlerReturn o ctx ar r session k
              = Some (Some ErrInvalidResponseType)) ->
   NewAuthorizeResponse o ctx ar r session = inr ErrNoResponseTypeHandlerFound) /\
  ((forall k e, handlerReturn o ctx ar r session k = Some (Some e) ->
                e = ErrInvalidResponseType) ->
   (forall k, handlerCalls o ctx ar r session !! k
              = handlerReturn o ctx ar r session k) /\
   (NewAuthorizeResponse o ctx ar r session = inr ErrNoResponseTypeHandlerFound
    <-> forall k, handlerReturn o ctx ar r session k <> Some None) /\
   (forall e, NewAuthorizeResponse o ctx ar r session = inr e ->
              e = ErrNoResponseTypeHandlerFound)).
Proof.
  unfold NewAuthorizeResponse, handlerCalls, handlerReturn.
  set (hs := ResponseTypeHandlers o).
  assert (Hfull :
            (forall k e, returnAt hs ctx ar r session newAuthorizeResponse k
                         = Some (Some e) -> e = ErrInvalidResponseType) ->
            (forall k, fst (handlersLoop hs ctx ar r session newAuthorizeResponse false)
                       !! k
                       = returnAt hs ctx ar r session newAuthorizeResponse k) /\
            exists found',
              snd (handlersLoop hs ctx ar r session newAuthorizeResponse false)
              = inl (accumulated hs ctx ar r session newAuthorizeResponse, found') /\
              (found' = true <->
               exists k, returnAt hs ctx ar r session newAuthorizeResponse k
                         = Some None)).
  { intros Hreturns.
    destruct (handlersLoop_calls_all hs ctx ar r session newAuthorizeResponse
                false Hreturns) as [Hcalls Hsame].
    destruct (handlersLoop_nonfatal hs ctx ar r session newAuthorizeResponse
                false Hcalls) as (_ & found' & Hout & Hfound).
    split; [exact Hsame|]. exists found'. split; [exact Hout|].
    rewrite Hfound. split.
    - intros [?|Hin]; [discriminate|].
      apply list_elem_of_lookup in Hin as [k Hk]. exists k.
      now rewrite <- Hsame.
    - intros [k Hk]. right. apply list_elem_of_lookup. exists k.
      now rewrite Hsame. }
  split; [|split].
  - intros Hnil Hreturns.
    destruct (Hfull Hreturns) as (_ & found' & -> & Hfound).
    apply Hfound in Hnil. now rewrite Hnil.
  - intros Hsentinel.
    assert (Hreturns : forall k e,
               returnAt hs ctx ar r session newAuthorizeResponse k = Some (Some e) ->
               e = ErrInvalidResponseType).
    { intros k e Hk. destruct (decide (k < length hs)) as [Hlt|Hge].
      - rewrite (Hsentinel k Hlt) in Hk. congruence.
      - unfold returnAt in Hk. destruct (hs !! k) eqn:Hh; [|discriminate].
        apply lookup_lt_Some in Hh. exfalso. exact (Hge Hh). }
    destruct (Hfull Hreturns) as (_ & found' & -> & Hfound).
    destruct found'; [|reflexivity].
    destruct Hfound as [[k Hk] _]; [reflexivity|].
    destruct (decide (k < length hs)) as [Hlt|Hge].
    + rewrite (Hsentinel k Hlt) in Hk. discriminate.
    + unfold returnAt in Hk. destruct (hs !! k) eqn:Hh; [|discriminate].
      apply lookup_lt_Some in Hh. exfalso. exact (Hge Hh).
  - intros Hreturns. destruct (Hfull Hreturns) as (Hsame & found' & -> & Hfound).
    split; [exact Hsame|]. destruct found'; simpl.
    + split; [split|]; try discriminate.
      intros Hnone. destruct Hfound as [[k Hk] _]; [reflexivity|].
      exfalso. now apply (Hnone k).
    + split; [split|].
      * intros _ k Hk. destruct Hfound as [_ Hfound].
        discriminate Hfound. now exists k.
      * reflexivity.
      * intros e [= <-]. reflexivity.
Qed.

(** C6: when the handler at position i returns an error that is not the
    not-responsible sentinel, on the response the handlers before it
    have written into, and those handlers returned nil or the sentinel
    (so that the handler at position i is reached), the dispatcher
    returns that error and the handler at position i is the last one
    called: the list of calls has i+1 entries, the results of the
    handlers at positions 0 to i. *)
Theorem NewAuthorizeResponse_fatal (o : Fosite)
  (ctx : Context) (ar : AuthorizeRequester) (r : Request) (session : Session)
  (i : nat) (e : error) :
  handlerReturn o ctx ar r session i = Some (Some e) ->
  e <> ErrInvalidResponseType ->
  (forall k e', k < i -> handlerReturn o ctx ar r session k = Some (Some e') ->
                e' = ErrInvalidResponseType) ->
  NewAuthorizeResponse o ctx ar r session = inr e /\
  length (handlerCalls o ctx ar r session) = S i /\
  (forall k, k <= i -> handlerCalls o ctx ar r session !! k
                       = handlerReturn o ctx ar r session k).
Proof.
  unfold NewAuthorizeResponse, handlerCalls, handlerReturn.
  intros Hi Hne Hbefore.
  pose proof (handlersLoop_first_fatal _ _ _ _ _ _ false _ _ Hi Hne Hbefore)
    as Hsame.
  assert (Hcall : fst (handlersLoop (ResponseTypeHandlers o) ctx ar r session
                         newAuthorizeResponse false) !! i = Some (Some e)).
  { rewrite (Hsame i) by lia. exact Hi. }
  destruct (handlersLoop_fatal _ _ _ _ _ _ _ _ _ Hcall Hne) as [-> ->]. auto.
Qed.

(** ** Properties of the response writers *)

Lemma Values_Add_lookup (key value k : string) (v : gmap string (list string)) :
  Values_Add key value v !! k =
  if decide (key = k) then Some (default [] (v !! key) ++ [value])%list
  else v !! k.
Proof. unfold Values_Add. apply lookup_insert. Qed.

Lemma Values_Get_Some (v : gmap string (list string)) (key : string)
  (values : list string) :
  v !! key = Some values -> Values_Get v key = hd "" values.
Proof. unfold Values_Get. intros ->. now destruct values. Qed.

(** What the merging loop leaves under each key: a key of the response
    gets the first of its values, and only that one, appended to what
    the redirect URI had; the other keys keep what they had. *)
Lemma mergeQuery_lookup (q args : gmap string (list string)) (k : string) :
  mergeQuery q args !! k =
  match args !! k with
  | Some values => Some (default [] (q !! k) ++ [hd "" values])%list
  | None => q !! k
  end.
Proof.
  unfold mergeQuery.
  assert (Hgen : forall get (m : gmap string (list string)),
             map_fold (fun k (_ : list string) acc => Values_Add k (get k) acc) q m !! k
             = match m !! k with
               | Some _ => Some (default [] (q !! k) ++ [get k])%list
               | None => q !! k
               end).
  { intros get m.
    apply (map_fold_weak_ind
             (fun acc (m : gmap string (list string)) =>
                acc !! k = match m !! k with
                           | Some _ => Some (default [] (q !! k) ++ [get k])%list
                           | None => q !! k
                           end)).
    - now rewrite lookup_empty.
    - intros i x m' acc Hfresh IH. rewrite Values_Add_lookup, lookup_insert.
      destruct (decide (i = k)) as [->|Hne]; [|exact IH].
      rewrite Hfresh in IH. now rewrite IH. }
  rewrite Hgen. destruct (args !! k) as [values|] eqn:Hk; [|reflexivity].
  now rewrite (Values_Get_Some _ _ _ Hk).
Qed.

(** Nothing the redirect URI already had under a key is replaced. *)
Lemma mergeQuery_keeps (q args : gmap string (list string)) (k : string)
  (old : list string) :
  q !! k = Some old ->
  exists added, mergeQuery q args !! k = Some (old ++ added)%list.
Proof.
  intros Hold. rewrite mergeQuery_lookup, Hold. simpl.
  destruct (args !! k) as [values|]; [eauto|].
  exists []. now rewrite app_nil_r.
Qed.

(** The success writer on a request whose redirect URI is in the store:
    the URI struct gets the encoded merged query, and the writer the
    copied headers, the Location of the updated URI and status 302. *)
Lemma WriteAuthorizeResponse_result (heap : gmap loc URL) (rw : ResponseWriter)
  (ar : AuthorizeRequester) (resp : AuthorizeResponse) (l : loc) (u : URL) :
  GetRedirectURI ar = Some l ->
  heap !! l = Some u ->
  WriteAuthorizeResponse heap rw ar resp =
  let u' := setRawQuery (Values_Encode (mergeQuery (URL_Query u) (GetQuery resp))) u in
  Some (<[l := u']> heap,
        WriteHeader StatusFound
          (Header_Set "Location" (URL_String u') (copyHeader (GetHeader resp) rw))).
Proof.
  intros Hl Hu. unfold WriteAuthorizeResponse. rewrite Hl. simpl.
  rewrite Hu. simpl. now rewrite lookup_insert_eq.
Qed.

(** C7 (the code against the claim): a response whose query holds two
    values under one key, scope = [a; b], written for a request whose
    redirect URI is the struct [u].  The query handed to [Encode] holds,
    under scope, what [u] had there followed by the first value a; the
    second value b is not appended. *)
Theorem WriteAuthorizeResponse_repeated_value (u : URL) (rw : ResponseWriter) :
  exists u' rw',
    WriteAuthorizeResponse {[ 0 := u ]} rw
      {| GetResponseTypes := ["code"]; GetRedirectURI := Some 0;
         IsRedirectURIValid := true |}
      {| GetHeader := ∅; GetQuery := {[ "scope" := ["a"; "b"] ]} |}
    = Some ({[ 0 := u' ]}, rw') /\
    RawQuery u' =
      Values_Encode
        (<["scope" := (default [] (URL_Query u !! "scope") ++ ["a"])%list]>
           (URL_Query u)) /\
    mergeQuery (URL_Query u) {[ "scope" := ["a"; "b"] ]} !! "scope"
    = Some (default [] (URL_Query u !! "scope") ++ ["a"])%list /\
    Header rw' !! CanonicalMIMEHeaderKey "Location" = Some [URL_String u'] /\
    WriteHeaderCalls rw' = (WriteHeaderCalls rw ++ [StatusFound])%list.
Proof.
  eexists _, _. split.
  - erewrite WriteAuthorizeResponse_result;
      [|reflexivity|apply lookup_singleton_eq].
    cbv zeta. rewrite insert_singleton_eq. reflexivity.
  - simpl. unfold copyHeader, mergeQuery.
    rewrite map_fold_empty, map_fold_singleton. simpl.
    repeat split.
    + unfold Values_Add. now rewrite lookup_insert_eq.
    + now rewrite lookup_insert_eq.
Qed.

(** C8: when the request does not report a valid redirect URI, the
    error writer only hands the RFC-mapped error to the JSON writer: no
    URI is touched, no Location is added and no status is written by
    it.  Otherwise the redirect URI in the store keeps every field but
    its raw query, which becomes the encoding of a query that holds the
    error name appended under error, the description appended under
    error_description and every other parameter as it was; the string
    of that URI is added as Location and status 302 is written. *)
Theorem WriteAuthorizeError_outcome (heap : gmap loc URL) (rw : ResponseWriter)
  (ar : AuthorizeRequester) (err : error) :
  (IsRedirectURIValid ar = false ->
   WriteAuthorizeError heap rw ar err
   = Some (heap, WriteJSON rw (ErrorToRFC6749Error err))) /\
  (forall l u,
      IsRedirectURIValid ar = true ->
      GetRedirectURI ar = Some l ->
      heap !! l = Some u ->
      exists query u' rw',
        WriteAuthorizeError heap rw ar err = Some (<[l := u']> heap, rw') /\
        u' = {| Scheme := Scheme u; Opaque := Opaque u; User := User u;
                Host := Host u; Path := Path u;
                RawQuery := Values_Encode query; Fragment := Fragment u |} /\
        query !! "error"
        = Some (default [] (url_ParseQuery (RawQuery u) !! "error")
                ++ [Name (ErrorToRFC6749Error err)])%list /\
        query !! "error_description"
        = Some (default [] (url_ParseQuery (RawQuery u) !! "error_description")
                ++ [Description (ErrorToRFC6749Error err)])%list /\
        (forall k, k <> "error" -> k <> "error_description" ->
                   query !! k = url_ParseQuery (RawQuery u) !! k) /\
        Header rw' !! CanonicalMIMEHeaderKey "Location"
        = Some (default [] (Header rw !! CanonicalMIMEHeaderKey "Location")
                ++ [URL_String u'])%list /\
        (forall c, c <> CanonicalMIMEHeaderKey "Location" ->
                   Header rw' !! c = Header rw !! c) /\
        WriteHeaderCalls rw' = (WriteHeaderCalls rw ++ [302%Z])%list /\
        Body rw' = Body rw).
Proof.
  unfold WriteAuthorizeError. split.
  - intros ->. reflexivity.
  - intros l u -> Hl Hu. rewrite Hl. simpl. rewrite Hu. simpl.
    eexists _, _, _. split; [reflexivity|]. split; [reflexivity|].
    split; [|split; [|split; [|split; [|split; [|split]]]]].
    + rewrite !Values_Add_lookup. reflexivity.
    + rewrite !Values_Add_lookup. reflexivity.
    + intros k Hk1 Hk2. rewrite !Values_Add_lookup.
      now rewrite !decide_False by congruence.
    + simpl. unfold Values_Add. now rewrite lookup_insert_eq.
    + intros c Hc. simpl. unfold Values_Add.
      now rewrite lookup_insert_ne by congruence.
    + reflexivity.
    + reflexivity.
Qed.

(** ** Further properties of resolution and of the builder *)

(** Where a resolved URI comes from (shared by the statements below). *)
Lemma Match_resolved_is_registered_aux (rawurl : string) (client : Client) (u : URL) :
  MatchRedirectURIWithClientRedirectURIs rawurl client = inl u ->
  exists uri,
    uri ∈ GetRedirectURIs client /\
    url_Parse uri = Some u /\
    ((rawurl = "" /\ GetRedirectURIs client = [uri]) \/
     (rawurl <> "" /\ uri = rawurl)).
Proof.
  unfold MatchRedirectURIWithClientRedirectURIs.
  destruct (String.eqb_spec rawurl "") as [Hempty|Hfull]; simpl.
  - destruct (GetRedirectURIs client) as [|uri [|uri' rest]] eqn:Huris; simpl;
      try discriminate.
    destruct (url_Parse uri) as [parsed|] eqn:Hparse; [|discriminate].
    destruct (IsValidRedirectURI parsed); [|discriminate].
    intros [= <-]. exists uri. split; [apply list_elem_of_here|]. auto 10.
  - destruct (StringInSlice rawurl (GetRedirectURIs client)) eqn:Hin;
      [|discriminate].
    apply StringInSlice_elem_of in Hin.
    destruct (url_Parse rawurl) as [parsed|] eqn:Hparse; [|discriminate].
    destruct (IsValidRedirectURI parsed); [|discriminate].
    intros [= <-]. exists rawurl. auto 10.
Qed.

(** A URI that resolution returns comes from a registered URI and from
    nowhere else: it is the parse of an entry of the client's list, it is
    valid, and the entry is the supplied string itself, or the only
    entry when no string was supplied. *)
Theorem Match_resolved_is_registered (rawurl : string) (client : Client) (u : URL) :
  MatchRedirectURIWithClientRedirectURIs rawurl client = inl u ->
  exists uri,
    uri ∈ GetRedirectURIs client /\
    url_Parse uri = Some u /\
    IsRequestURL (URL_String u) = true /\
    Fragment u = "" /\
    ((rawurl = "" /\ GetRedirectURIs client = [uri]) \/
     (rawurl <> "" /\ uri = rawurl)).
Proof.
  intros Hmatch. pose proof (Match_inl_valid _ _ _ Hmatch) as Hvalid.
  apply IsValidRedirectURI_true in Hvalid as [Hreq Hfrag].
  destruct (Match_resolved_is_registered_aux _ _ _ Hmatch)
    as (uri & Hin & Hparse & Hcase).
  exists uri. auto 10.
Qed.

(** For a client with one registered URI, sending that URI and sending
    no redirect_uri resolve alike. *)
Theorem Match_single_uri_explicit_or_omitted (uri : string) (client : Client) :
  GetRedirectURIs client = [uri] ->
  MatchRedirectURIWithClientRedirectURIs uri client
  = MatchRedirectURIWithClientRedirectURIs "" client.
Proof.
  intros Huris. unfold MatchRedirectURIWithClientRedirectURIs. rewrite Huris.
  simpl. destruct (String.eqb_spec uri "") as [->|Hne]; simpl; [reflexivity|].
  now rewrite String.eqb_refl.
Qed.

(** The fields of a request the builder returns without an error: the
    client the store has for client_id, the parse of one of that
    client's registered URIs (the unescaped redirect_uri itself, or the
    only registered one when redirect_uri is empty), the split
    response_type and scope values, and the state as sent. *)
Theorem NewAuthorizeRequest_success_fields (c : Fosite) (now : Z) (r : Request)
  (request : AuthorizeRequest) :
  NewAuthorizeRequest c now r = (Some request, None) ->
  exists form client raw uri u,
    ParseForm r = Some form /\
    GetClient (Store c) (Values_Get form "client_id") = inl client /\
    url_QueryUnescape (Values_Get form "redirect_uri") = Some raw /\
    uri ∈ GetRedirectURIs client /\
    ((raw = "" /\ GetRedirectURIs client = [uri]) \/ (raw <> "" /\ uri = raw)) /\
    url_Parse uri = Some u /\
    request =
      {| RequestedAt := now; Client_ := Some client; RedirectURI := Some u;
         ResponseTypes :=
           removeEmpty (strings_Split_space (Values_Get form "response_type"));
         State := Values_Get form "state";
         Scopes := removeEmpty (strings_Split_space (Values_Get form "scope")) |}.
Proof.
  unfold NewAuthorizeRequest, GetRedirectURIFromRequestValues.
  destruct (ParseForm r) as [form|]; [|discriminate].
  destruct (GetClient (Store c) _) as [client|] eqn:Hclient; [|discriminate].
  destruct (url_QueryUnescape _) as [raw|] eqn:Hraw; [|discriminate].
  destruct (MatchRedirectURIWithClientRedirectURIs raw client) as [u|] eqn:Hmatch;
    [|discriminate].
  destruct (IsValidRedirectURI u); [|discriminate]. simpl negb. cbv iota.
  destruct (String.eqb (Values_Get form "state") ""); [discriminate|].
  destruct (Nat.ltb _ _); [discriminate|].
  intros [= <-].
  destruct (Match_resolved_is_registered_aux _ _ _ Hmatch)
    as (uri & Hin & Hparse & Hcase).
  exists form, client, raw, uri, u. simpl. auto 10.
Qed.

Lemma Split_space_pieces (s piece : string) :
  piece ∈ strings_Split_space s -> containsSpace piece = false.
Proof.
  revert piece. induction s as [|c rest IH]; intros piece; simpl.
  - intros Hin. apply list_elem_of_singleton in Hin. now subst.
  - destruct (Ascii.eqb c " "%char) eqn:Hc.
    + intros Hin. apply elem_of_cons in Hin as [->|Hin]; [reflexivity|].
      now apply IH.
    + destruct (strings_Split_space rest) as [|first others].
      * intros Hin. apply list_elem_of_singleton in Hin. subst. simpl.
        now rewrite Hc.
      * intros Hin. apply elem_of_cons in Hin as [->|Hin].
        -- simpl. rewrite Hc. simpl. apply IH, list_elem_of_here.
        -- now apply IH, list_elem_of_further.
Qed.

Lemma removeEmpty_Split_tokens (s token : string) :
  token ∈ removeEmpty (strings_Split_space s) ->
  token <> "" /\ containsSpace token = false.
Proof.
  unfold removeEmpty. intros Hin.
  apply list_elem_of_filter in Hin as [Hne Hin].
  split; [exact Hne | now apply Split_space_pieces with s].
Qed.

(** The response types and scopes of any request the builder returns,
    with or without an error, are tokens: none is empty and none holds
    a space. *)
Theorem NewAuthorizeRequest_tokens (c : Fosite) (now : Z) (r : Request)
  (request : AuthorizeRequest) (token : string) :
  fst (NewAuthorizeRequest c now r) = Some request ->
  token ∈ ResponseTypes request \/ token ∈ Scopes request ->
  token <> "" /\ containsSpace token = false.
Proof.
  unfold NewAuthorizeRequest.
  assert (Hnone : forall t : string, t ∈ @nil string \/ t ∈ @nil string -> False).
  { intros t [Hin|Hin]; inversion Hin. }
  destruct (ParseForm r) as [form|];
    [|intros [= <-] Hin; simpl in Hin; now apply Hnone in Hin].
  destruct (GetClient (Store c) _) as [client|];
    [|intros [= <-] Hin; simpl in Hin; now apply Hnone in Hin].
  destruct (GetRedirectURIFromRequestValues form) as [raw|];
    [|intros [= <-] Hin; simpl in Hin; now apply Hnone in Hin].
  destruct (MatchRedirectURIWithClientRedirectURIs raw client) as [u|];
    [|intros [= <-] Hin; simpl in Hin; now apply Hnone in Hin].
  destruct (negb (IsValidRedirectURI u));
    [intros [= <-] Hin; simpl in Hin; now apply Hnone in Hin|].
  cbv zeta.
  destruct (String.eqb (Values_Get form "state") "").
  { intros [= <-] [Hin|Hin]; simpl in Hin;
      [now apply removeEmpty_Split_tokens in Hin | inversion Hin]. }
  destruct (Nat.ltb _ _).
  { intros [= <-] [Hin|Hin]; simpl in Hin;
      [now apply removeEmpty_Split_tokens in Hin | inversion Hin]. }
  intros [= <-] [Hin|Hin]; simpl in Hin;
    now apply removeEmpty_Split_tokens in Hin.
Qed.

(** A form without a redirect_uri key and a form whose redirect_uri is
    the empty string build the same result. *)
Theorem NewAuthorizeRequest_missing_redirect_uri (c : Fosite) (now : Z)
  (r1 r2 : Request) (form : gmap string (list string)) :
  ParseForm r1 = Some (delete "redirect_uri" form) ->
  ParseForm r2 = Some (<["redirect_uri" := [""]]> form) ->
  NewAuthorizeRequest c now r1 = NewAuthorizeRequest c now r2.
Proof.
  intros Hr1 Hr2.
  assert (Hother : forall key, key <> "redirect_uri" ->
            Values_Get (delete "redirect_uri" form) key
            = Values_Get (<["redirect_uri" := [""]]> form) key).
  { intros key Hne. unfold Values_Get.
    rewrite lookup_delete_ne, lookup_insert_ne by congruence. reflexivity. }
  assert (Hredirect : Values_Get (delete "redirect_uri" form) "redirect_uri"
                      = Values_Get (<["redirect_uri" := [""]]> form) "redirect_uri").
  { unfold Values_Get. now rewrite lookup_delete_eq, lookup_insert_eq. }
  unfold NewAuthorizeRequest, GetRedirectURIFromRequestValues.
  rewrite Hr1, Hr2, Hredirect.
  rewrite !(Hother "client_id"), !(Hother "response_type"), !(Hother "state"),
    !(Hother "scope") by discriminate.
  reflexivity.
Qed.

(** ** Further properties of the dispatcher *)

(** A loop that ran to its end met no fatal error. *)
Lemma handlersLoop_inl_nonfatal (hs : list ResponseTypeHandler)
  (ctx : Context) (ar : AuthorizeRequester) (r : Request) (session : Session)
  (resp : AuthorizeResponse) (found : bool) (out : AuthorizeResponse * bool) :
  snd (handlersLoop hs ctx ar r session resp found) = inl out ->
  forall e, Some e ∈ fst (handlersLoop hs ctx ar r session resp found) ->
            e = ErrInvalidResponseType.
Proof.
  revert resp found. induction hs as [|h rest IH]; intros resp found.
  - simpl. intros _ e Hin. inversion Hin.
  - rewrite handlersLoop_cons.
    destruct (snd (h ctx resp ar r session)) as [e0|] eqn:Herr.
    + destruct (negb (error_eqb e0 ErrInvalidResponseType)) eqn:Hfatal;
        simpl; [discriminate|].
      intros Hout e Hin. apply elem_of_cons in Hin as [[= ->]|Hin].
      * now apply negb_false_iff, error_eqb_eq in Hfatal.
      * now apply (IH _ _ Hout).
    + simpl. intros Hout e Hin. apply elem_of_cons in Hin as [Hin|Hin];
        [discriminate|]. now apply (IH _ _ Hout).
Qed.

(** A loop that returned early did so on the fatal error of a handler. *)
Lemma handlersLoop_inr_fatal (hs : list ResponseTypeHandler)
  (ctx : Context) (ar : AuthorizeRequester) (r : Request) (session : Session)
  (resp : AuthorizeResponse) (found : bool) (e : error) :
  snd (handlersLoop hs ctx ar r session resp found) = inr e ->
  e <> ErrInvalidResponseType /\
  exists i, fst (handlersLoop hs ctx ar r session resp found) !! i = Some (Some e).
Proof.
  revert resp found. induction hs as [|h rest IH]; intros resp found.
  - discriminate.
  - rewrite handlersLoop_cons.
    destruct (snd (h ctx resp ar r session)) as [e0|] eqn:Herr.
    + destruct (negb (error_eqb e0 ErrInvalidResponseType)) eqn:Hfatal; simpl.
      * intros [= <-]. apply error_eqb_sentinel in Hfatal.
        split; [exact Hfatal|]. now exists 0.
      * intros Hout. destruct (IH _ _ Hout) as (Hne & i & Hi).
        split; [exact Hne|]. now exists (S i).
    + simpl. intros Hout. destruct (IH _ _ Hout) as (Hne & i & Hi).
      split; [exact Hne|]. now exists (S i).
Qed.


(** The dispatcher never hands the not-responsible sentinel to its
    caller: an error it returns is another error value. *)
Theorem NewAuthorizeResponse_never_sentinel (o : Fosite)
  (ctx : Context) (ar : AuthorizeRequester) (r : Request) (session : Session)
  (e : error) :
  NewAuthorizeResponse o ctx ar r session = inr e ->
  e <> ErrInvalidResponseType.
Proof.
  unfold NewAuthorizeResponse.
  destruct (snd (handlersLoop (ResponseTypeHandlers o) ctx ar r session
                   newAuthorizeResponse false)) as [[resp found]|e0] eqn:Hout.
  - destruct found; simpl; [discriminate|]. intros [= <-]. discriminate.
  - intros [= <-]. now apply handlersLoop_inr_fatal in Hout as [Hne _].
Qed.

(** A response comes back only from a full traversal: every handler of
    the chain was called, each returned nil or the sentinel, at least
    one returned nil, and the response is the one all of them wrote
    into, in the order of the chain. *)
Theorem NewAuthorizeResponse_success_inversion (o : Fosite)
  (ctx : Context) (ar : AuthorizeRequester) (r : Request) (session : Session)
  (resp : AuthorizeResponse) :
  NewAuthorizeResponse o ctx ar r session = inl resp ->
  length (handlerCalls o ctx ar r session) = length (ResponseTypeHandlers o) /\
  (forall e, Some e ∈ handlerCalls o ctx ar r session ->
             e = ErrInvalidResponseType) /\
  None ∈ handlerCalls o ctx ar r session /\
  resp = accumulated (ResponseTypeHandlers o) ctx ar r session newAuthorizeResponse.
Proof.
  unfold NewAuthorizeResponse, handlerCalls.
  destruct (snd (handlersLoop (ResponseTypeHandlers o) ctx ar r session
                   newAuthorizeResponse false)) as [[resp0 found]|e0] eqn:Hout;
    [|discriminate].
  destruct found; simpl; [|discriminate]. intros [= <-].
  pose proof (handlersLoop_inl_nonfatal _ _ _ _ _ _ _ _ Hout) as Hall.
  destruct (handlersLoop_nonfatal _ _ _ _ _ _ _ Hall)
    as (Hlen & found' & Hout' & Hfound).
  rewrite Hout in Hout'. injection Hout' as -> <-.
  repeat split; try assumption.
  destruct Hfound as [Hnil _]. destruct (Hnil eq_refl) as [?|?];
    [discriminate | assumption].
Qed.

(** An error comes back in one of two ways: the aggregate
    NoResponseTypeHandlerFound after every handler returned the
    sentinel, or the error of the last handler called, which is not the
    sentinel. *)
Theorem NewAuthorizeResponse_error_inversion (o : Fosite)
  (ctx : Context) (ar : AuthorizeRequester) (r : Request) (session : Session)
  (e : error) :
  NewAuthorizeResponse o ctx ar r session = inr e ->
  (e = ErrNoResponseTypeHandlerFound /\
   handlerCalls o ctx ar r session
   = replicate (length (ResponseTypeHandlers o)) (Some ErrInvalidResponseType)) \/
  (e <> ErrInvalidResponseType /\
   exists i, handlerCalls o ctx ar r session !! i = Some (Some e) /\
             length (handlerCalls o ctx ar r session) = S i).
Proof.
  unfold NewAuthorizeResponse, handlerCalls.
  destruct (snd (handlersLoop (ResponseTypeHandlers o) ctx ar r session
                   newAuthorizeResponse false)) as [[resp0 found]|e0] eqn:Hout.
  - destruct found; simpl; [discriminate|]. intros [= <-]. left.
    split; [reflexivity|].
    pose proof (handlersLoop_inl_nonfatal _ _ _ _ _ _ _ _ Hout) as Hall.
    destruct (handlersLoop_nonfatal _ _ _ _ _ _ _ Hall)
      as (Hlen & found' & Hout' & Hfound).
    rewrite Hout in Hout'. injection Hout' as _ <-.
    rewrite <- Hlen. symmetry. apply replicate_as_Forall. split; [reflexivity|].
    apply Forall_forall. intros [e|] Hin.
    + f_equal. symmetry. now apply Hall.
    + destruct Hfound as [_ Hnil]. discriminate Hnil. now right.
  - intros [= <-]. right.
    destruct (handlersLoop_inr_fatal _ _ _ _ _ _ _ _ Hout) as (Hne & i & Hi).
    split; [exact Hne|]. exists i. split; [exact Hi|].
    now destruct (handlersLoop_fatal _ _ _ _ _ _ _ _ _ Hi Hne).
Qed.


(** ** Further properties of the response writers *)

(** Adding the values of one key, in order, to the writer's header. *)
Lemma Header_Add_all (k : string) (values : list string) (rw : ResponseWriter) :
  let rw' := foldl (fun acc vv => Header_Add k vv acc) rw values in
  WriteHeaderCalls rw' = WriteHeaderCalls rw /\
  Body rw' = Body rw /\
  default [] (Header rw' !! CanonicalMIMEHeaderKey k)
  = (default [] (Header rw !! CanonicalMIMEHeaderKey k) ++ values)%list /\
  (forall c, c <> CanonicalMIMEHeaderKey k -> Header rw' !! c = Header rw !! c).
Proof.
  revert rw. induction values as [|vv values IH]; intros rw; simpl.
  - rewrite app_nil_r. auto.
  - destruct (IH (Header_Add k vv rw)) as (Hcalls & Hbody & Hkey & Hother).
    rewrite Hcalls, Hbody, Hkey. simpl. repeat split.
    + unfold Values_Add. rewrite lookup_insert_eq. simpl.
      now rewrite <- app_assoc.
    + intros c Hc. rewrite (Hother c Hc). simpl. unfold Values_Add.
      now rewrite lookup_insert_ne by congruence.
Qed.

(** Copying headers leaves the status calls and the body alone. *)
Lemma copyHeader_rest (header : gmap string (list string)) (rw : ResponseWriter) :
  WriteHeaderCalls (copyHeader header rw) = WriteHeaderCalls rw /\
  Body (copyHeader header rw) = Body rw.
Proof.
  unfold copyHeader.
  apply (map_fold_weak_ind
           (fun acc (_ : gmap string (list string)) =>
              WriteHeaderCalls acc = WriteHeaderCalls rw /\ Body acc = Body rw)).
  - auto.
  - intros k values m acc _ [Hcalls Hbody].
    destruct (Header_Add_all k values acc) as (Hc & Hb & _).
    cbv zeta in Hc, Hb. now rewrite Hc, Hb.
Qed.

(** Copying headers whose keys have pairwise different canonical forms:
    each key's values are appended, in order, to what the writer had
    under the canonical key, and no other name changes. *)
Lemma copyHeader_lookup (header : gmap string (list string)) (rw : ResponseWriter) :
  (forall k1 k2, is_Some (header !! k1) -> is_Some (header !! k2) ->
                 CanonicalMIMEHeaderKey k1 = CanonicalMIMEHeaderKey k2 -> k1 = k2) ->
  (forall k values,
      header !! k = Some values ->
      default [] (Header (copyHeader header rw) !! CanonicalMIMEHeaderKey k)
      = (default [] (Header rw !! CanonicalMIMEHeaderKey k) ++ values)%list) /\
  (forall c,
      (forall k, is_Some (header !! k) -> CanonicalMIMEHeaderKey k <> c) ->
      Header (copyHeader header rw) !! c = Header rw !! c).
Proof.
  unfold copyHeader.
  apply (map_fold_weak_ind
           (fun acc (m : gmap string (list string)) =>
              (forall k1 k2, is_Some (m !! k1) -> is_Some (m !! k2) ->
                             CanonicalMIMEHeaderKey k1 = CanonicalMIMEHeaderKey k2 ->
                             k1 = k2) ->
              (forall k values,
                  m !! k = Some values ->
                  default [] (Header acc !! CanonicalMIMEHeaderKey k)
                  = (default [] (Header rw !! CanonicalMIMEHeaderKey k) ++ values)%list) /\
              (forall c,
                  (forall k, is_Some (m !! k) -> CanonicalMIMEHeaderKey k <> c) ->
                  Header acc !! c = Header rw !! c))).
  - intros _. split.
    + intros k values Hk. now rewrite lookup_empty in Hk.
    + reflexivity.
  - intros i x m acc Hfresh IH Hinj.
    assert (Hinj_m : forall k1 k2, is_Some (m !! k1) -> is_Some (m !! k2) ->
                       CanonicalMIMEHeaderKey k1 = CanonicalMIMEHeaderKey k2 ->
                       k1 = k2).
    { intros k1 k2 [v1 H1] [v2 H2]. apply Hinj.
      - destruct (decide (i = k1)) as [->|Hne]; [congruence|].
        rewrite lookup_insert_ne by exact Hne. eauto.
      - destruct (decide (i = k2)) as [->|Hne]; [congruence|].
        rewrite lookup_insert_ne by exact Hne. eauto. }
    destruct (IH Hinj_m) as [IHkeys IHother].
    assert (Hapart : forall k, is_Some (m !! k) ->
                       CanonicalMIMEHeaderKey k <> CanonicalMIMEHeaderKey i).
    { intros k [v Hk] Hcanon.
      assert (k = i) as ->; [|congruence].
      apply Hinj; [|rewrite lookup_insert_eq; eauto|exact Hcanon].
      destruct (decide (i = k)) as [->|Hne]; [congruence|].
      rewrite lookup_insert_ne by exact Hne. eauto. }
    destruct (Header_Add_all i x acc) as (_ & _ & Hkey & Hother).
    cbv zeta in Hkey, Hother. split.
    + intros k values Hk. destruct (decide (i = k)) as [<-|Hne].
      * rewrite lookup_insert_eq in Hk. injection Hk as <-.
        rewrite Hkey. f_equal. f_equal. now apply IHother.
      * rewrite lookup_insert_ne in Hk by exact Hne.
        rewrite Hother by (apply Hapart; eauto). now apply IHkeys.
    + intros c Hc. rewrite Hother.
      * apply IHother. intros k [v Hk]. apply Hc.
        destruct (decide (i = k)) as [->|Hne]; [congruence|].
        rewrite lookup_insert_ne by exact Hne. eauto.
      * intros ->. apply (Hc i); [|reflexivity].
        rewrite lookup_insert_eq. eauto.
Qed.

(** A success write that returns found the redirect URI in the store. *)
Lemma WriteAuthorizeResponse_Some (heap heap' : gmap loc URL) (rw rw' : ResponseWriter)
  (ar : AuthorizeRequester) (resp : AuthorizeResponse) :
  WriteAuthorizeResponse heap rw ar resp = Some (heap', rw') ->
  exists l u, GetRedirectURI ar = Some l /\ heap !! l = Some u.
Proof.
  unfold WriteAuthorizeResponse.
  destruct (GetRedirectURI ar) as [l|]; [|discriminate]. simpl.
  destruct (heap !! l) as [u|] eqn:Hu; [|discriminate].
  intros _. exists l, u. split; [reflexivity | exact Hu].
Qed.

(** What the success writer leaves on the redirect URI in the store:
    every field but the raw query as it was, and as raw query the
    encoding of a query that holds, under a key of the response, what
    the URI had there followed by the first of the key's values (the
    empty string when the key has no value), and under any other key
    what the URI had.  No other URI in the store changes. *)
Theorem WriteAuthorizeResponse_query (heap : gmap loc URL) (rw : ResponseWriter)
  (ar : AuthorizeRequester) (resp : AuthorizeResponse) (l : loc) (u : URL) :
  GetRedirectURI ar = Some l ->
  heap !! l = Some u ->
  exists q heap' rw',
    WriteAuthorizeResponse heap rw ar resp = Some (heap', rw') /\
    heap' !! l
    = Some {| Scheme := Scheme u; Opaque := Opaque u; User := User u;
              Host := Host u; Path := Path u;
              RawQuery := Values_Encode q; Fragment := Fragment u |} /\
    (forall l', l' <> l -> heap' !! l' = heap !! l') /\
    (forall k values,
        GetQuery resp !! k = Some values ->
        q !! k = Some (default [] (url_ParseQuery (RawQuery u) !! k)
                       ++ [hd "" values])%list) /\
    (forall k, GetQuery resp !! k = None ->
               q !! k = url_ParseQuery (RawQuery u) !! k).
Proof.
  intros Hl Hu. rewrite (WriteAuthorizeResponse_result _ _ _ _ _ _ Hl Hu).
  cbv zeta. eexists _, _, _. split; [reflexivity|].
  split; [apply lookup_insert_eq|].
  split; [intros l' Hne; now apply lookup_insert_ne|].
  split.
  - intros k values Hk. now rewrite mergeQuery_lookup, Hk.
  - intros k Hk. now rewrite mergeQuery_lookup, Hk.
Qed.

(** The success writer copies the response headers: when no two keys of
    the response share a canonical form, every key other than Location
    ends with what the writer had under its canonical form followed by
    all the key's values in order, and a name that is no key's canonical
    form, Location apart, is left as it was. *)
Theorem WriteAuthorizeResponse_headers (heap heap' : gmap loc URL)
  (rw rw' : ResponseWriter) (ar : AuthorizeRequester) (resp : AuthorizeResponse) :
  (forall k1 k2, is_Some (GetHeader resp !! k1) -> is_Some (GetHeader resp !! k2) ->
                 CanonicalMIMEHeaderKey k1 = CanonicalMIMEHeaderKey k2 -> k1 = k2) ->
  WriteAuthorizeResponse heap rw ar resp = Some (heap', rw') ->
  (forall k values,
      GetHeader resp !! k = Some values ->
      CanonicalMIMEHeaderKey k <> CanonicalMIMEHeaderKey "Location" ->
      default [] (Header rw' !! CanonicalMIMEHeaderKey k)
      = (default [] (Header rw !! CanonicalMIMEHeaderKey k) ++ values)%list) /\
  (forall c,
      c <> CanonicalMIMEHeaderKey "Location" ->
      (forall k, is_Some (GetHeader resp !! k) -> CanonicalMIMEHeaderKey k <> c) ->
      Header rw' !! c = Header rw !! c).
Proof.
  intros Hinj Hwrite.
  destruct (WriteAuthorizeResponse_Some _ _ _ _ _ _ Hwrite) as (l & u & Hl & Hu).
  rewrite (WriteAuthorizeResponse_result _ _ _ _ _ _ Hl Hu) in Hwrite.
  cbv zeta in Hwrite. injection Hwrite as _ <-.
  destruct (copyHeader_lookup (GetHeader resp) rw Hinj) as [Hkeys Hother].
  simpl. split.
  - intros k values Hk Hloc. rewrite lookup_insert_ne by congruence.
    now apply Hkeys.
  - intros c Hloc Hc. rewrite lookup_insert_ne by congruence. now apply Hother.
Qed.

(** The success writer replaces Location: whatever the writer or the
    response had under that name, afterwards it holds one value, the
    string of the redirect URI as the store now has it.  One status,
    302, is written, and nothing goes to the body. *)
Theorem WriteAuthorizeResponse_location (heap heap' : gmap loc URL)
  (rw rw' : ResponseWriter) (ar : AuthorizeRequester) (resp : AuthorizeResponse) :
  WriteAuthorizeResponse heap rw ar resp = Some (heap', rw') ->
  exists l u',
    GetRedirectURI ar = Some l /\
    heap' !! l = Some u' /\
    Header rw' !! CanonicalMIMEHeaderKey "Location" = Some [URL_String u'] /\
    WriteHeaderCalls rw' = (WriteHeaderCalls rw ++ [StatusFound])%list /\
    Body rw' = Body rw.
Proof.
  intros Hwrite.
  destruct (WriteAuthorizeResponse_Some _ _ _ _ _ _ Hwrite) as (l & u & Hl & Hu).
  rewrite (WriteAuthorizeResponse_result _ _ _ _ _ _ Hl Hu) in Hwrite.
  cbv zeta in Hwrite. injection Hwrite as <- <-.
  destruct (copyHeader_rest (GetHeader resp) rw) as [Hcalls Hbody].
  eexists l, _. split; [exact Hl|]. split; [apply lookup_insert_eq|].
  simpl. rewrite Hcalls, Hbody. split; [apply lookup_insert_eq|]. auto.
Qed.

(** The error writer after the success writer, on the same request: it
    reads back the query the success writer stored on the redirect URI
    and appends the error to it; the writer then holds two Location
    values and has been given status 302 twice. *)
Theorem WriteAuthorizeError_after_Response (heap heap1 : gmap loc URL)
  (rw rw1 : ResponseWriter) (ar : AuthorizeRequester) (resp : AuthorizeResponse)
  (err : error) :
  IsRedirectURIValid ar = true ->
  WriteAuthorizeResponse heap rw ar resp = Some (heap1, rw1) ->
  exists l u1 u2 heap2 rw2,
    GetRedirectURI ar = Some l /\
    heap1 !! l = Some u1 /\
    WriteAuthorizeError heap1 rw1 ar err = Some (heap2, rw2) /\
    heap2 !! l = Some u2 /\
    RawQuery u2 =
      Values_Encode
        (Values_Add "error_description" (Description (ErrorToRFC6749Error err))
           (Values_Add "error" (Name (ErrorToRFC6749Error err))
              (url_ParseQuery (RawQuery u1)))) /\
    Header rw2 !! CanonicalMIMEHeaderKey "Location"
    = Some [URL_String u1; URL_String u2] /\
    WriteHeaderCalls rw2
    = (WriteHeaderCalls rw ++ [StatusFound; StatusFound])%list.
Proof.
  intros Hvalid Hwrite.
  destruct (WriteAuthorizeResponse_Some _ _ _ _ _ _ Hwrite) as (l & u & Hl & Hu).
  rewrite (WriteAuthorizeResponse_result _ _ _ _ _ _ Hl Hu) in Hwrite.
  cbv zeta in Hwrite. injection Hwrite as <- <-.
  destruct (copyHeader_rest (GetHeader resp) rw) as [Hcalls _].
  set (u1 := setRawQuery (Values_Encode (mergeQuery (URL_Query u) (GetQuery resp))) u).
  assert (Hu1 : <[l := u1]> heap !! l = Some u1) by apply lookup_insert_eq.
  revert Hu1. generalize (<[l := u1]> heap). intros heap1 Hu1.
  unfold WriteAuthorizeError. rewrite Hvalid, Hl. simpl. rewrite Hu1. simpl.
  eexists l, u1, _, _, _. split; [reflexivity|].
  split; [exact Hu1|]. split; [reflexivity|].
  split; [apply lookup_insert_eq|]. split; [reflexivity|]. split.
  - unfold WriteHeader, Header_Add, Header_Set, Values_Add. cbn [Header].
    now rewrite !lookup_insert_eq.
  - unfold WriteHeader, Header_Add, Header_Set. cbn [WriteHeaderCalls].
    rewrite Hcalls. now rewrite <- app_assoc.
Qed.

End Authorize.


(** ** Examples: the scenarios of the specification on the sample instance *)

(** Scenario 3: a redirect_uri the client has not registered. *)
Lemma Match_unregistered_rejected_witness :
  MatchRedirectURIWithClientRedirectURIs Sample.Parse Sample.URLString
    Sample.IsRequestURL "https://evil.example/cb" Sample.c1
  = inr (errors_New ErrInvalidRequest).
Proof.
  apply Match_unregistered_rejected.
  - discriminate.
  - intros Hin. apply StringInSlice_elem_of in Hin. discriminate.
Defined.

(** Scenario 4: the registered URI itself carries a fragment. *)
Lemma Match_registered_invalid_rejected_witness :
  "https://app.example/cb#frag" ∈ GetRedirectURIs Sample.c4 /\
  MatchRedirectURIWithClientRedirectURIs Sample.Parse Sample.URLString
    Sample.IsRequestURL "https://app.example/cb#frag" Sample.c4
  = inr (errors_New ErrInvalidRequest).
Proof.
  split; [apply list_elem_of_here|].
  apply Match_registered_invalid_rejected.
  - apply list_elem_of_here.
  - right. eexists. split; [reflexivity|]. left. discriminate.
Defined.

(** Scenario 1, the resolver's part: no redirect_uri, one registered URI. *)
Lemma Match_empty_redirect_uri_witness :
  MatchRedirectURIWithClientRedirectURIs Sample.Parse Sample.URLString
    Sample.IsRequestURL "" Sample.c1
  = inl {| Scheme := ""; Opaque := "https://app.example/cb"; User := "";
           Host := ""; Path := ""; RawQuery := ""; Fragment := "" |}.
Proof.
  apply (proj1 (Match_empty_redirect_uri Sample.Parse Sample.URLString
                  Sample.IsRequestURL Sample.c1) "https://app.example/cb");
    reflexivity.
Defined.





(** Scenario 5, the same chain in the other order, and scenario 6: one
    handler is responsible; no handler is. *)
Lemma NewAuthorizeResponse_found_witness :
  NewAuthorizeResponse Sample.Request unit unit
    (mkFosite _ _ _ Sample.store [Sample.TokenHandler; Sample.GrantHandler])
    tt Sample.ar0 ∅ tt
  = inl {| GetHeader := ∅; GetQuery := {[ "code" := ["xyz"] ]} |} /\
  NewAuthorizeResponse Sample.Request unit unit
    (mkFosite _ _ _ Sample.store [Sample.GrantHandler; Sample.TokenHandler])
    tt Sample.ar0 ∅ tt
  = inl {| GetHeader := ∅; GetQuery := {[ "code" := ["xyz"] ]} |} /\
  NewAuthorizeResponse Sample.Request unit unit
    (mkFosite _ _ _ Sample.store [Sample.TokenHandler; Sample.TokenHandler])
    tt Sample.ar0 ∅ tt
  = inr ErrNoResponseTypeHandlerFound.
Proof.
  split; [|split].
  - apply (proj1 (NewAuthorizeResponse_found Sample.Request unit unit
                    (mkFosite _ _ _ Sample.store
                       [Sample.TokenHandler; Sample.GrantHandler])
                    tt Sample.ar0 ∅ tt)).
    + exists 1. reflexivity.
    + intros k e Hk. destruct k as [|[|k]]; try discriminate Hk.
      injection Hk as <-. reflexivity.
  - apply (proj1 (NewAuthorizeResponse_found Sample.Request unit unit
                    (mkFosite _ _ _ Sample.store
                       [Sample.GrantHandler; Sample.TokenHandler])
                    tt Sample.ar0 ∅ tt)).
    + exists 0. reflexivity.
    + intros k e Hk. destruct k as [|[|k]]; try discriminate Hk.
      injection Hk as <-. reflexivity.
  - apply (proj1 (proj2 (NewAuthorizeResponse_found Sample.Request unit unit
                           (mkFosite _ _ _ Sample.store
                              [Sample.TokenHandler; Sample.TokenHandler])
                           tt Sample.ar0 ∅ tt))).
    intros k Hk. destruct k as [|[|k]]; [reflexivity | reflexivity |].
    simpl in Hk. lia.
Defined.

(** A chain whose second handler fails, after one that succeeded: the
    third is not called. *)
Lemma NewAuthorizeResponse_fatal_witness :
  NewAuthorizeResponse Sample.Request unit unit
    (mkFosite _ _ _ Sample.store
       [Sample.GrantHandler; Sample.BrokenHandler; Sample.GrantHandler])
    tt Sample.ar0 ∅ tt
  = inr (ErrOther "storage unavailable") /\
  length (handlerCalls Sample.Request unit unit
            (mkFosite _ _ _ Sample.store
               [Sample.GrantHandler; Sample.BrokenHandler; Sample.GrantHandler])
            tt Sample.ar0 ∅ tt) = 2.
Proof.
  destruct (NewAuthorizeResponse_fatal Sample.Request unit unit
              (mkFosite _ _ _ Sample.store
                 [Sample.GrantHandler; Sample.BrokenHandler; Sample.GrantHandler])
              tt Sample.ar0 ∅ tt 1 (ErrOther "storage unavailable"))
    as (Hres & Hlen & _).
  - reflexivity.
  - discriminate.
  - intros k e' Hlt Hk. destruct k as [|k]; [discriminate Hk | lia].
  - exact (conj Hres Hlen).
Defined.

(** Scenario 2, the writer's part: without a valid redirect URI the
    error goes to the JSON writer; with one it goes onto the redirect
    URI. *)
Lemma WriteAuthorizeError_outcome_witness :
  WriteAuthorizeError Sample.URLString Sample.ParseQuery Sample.Encode
    Sample.CanonicalMIMEHeaderKey Sample.WriteJSON Sample.ErrorToRFC6749Error
    {[ 0 := Sample.cb ]} Sample.rw0 Sample.arInvalid (errors_New ErrInvalidState)
  = Some ({[ 0 := Sample.cb ]},
          {| Header := ∅; WriteHeaderCalls := []; Body := ["invalid_state"] |}) /\
  exists query u' rw',
    WriteAuthorizeError Sample.URLString Sample.ParseQuery Sample.Encode
      Sample.CanonicalMIMEHeaderKey Sample.WriteJSON Sample.ErrorToRFC6749Error
      {[ 0 := Sample.cb ]} Sample.rw0 Sample.ar0 (errors_New ErrInvalidState)
    = Some (<[0 := u']> {[ 0 := Sample.cb ]}, rw') /\
    RawQuery u' = Sample.Encode query /\
    query !! "error" = Some ["invalid_state"] /\
    query !! "error_description" = Some ["the state is missing or too short"] /\
    Header rw' !! "Location" = Some [Sample.URLString u'] /\
    WriteHeaderCalls rw' = [302%Z].
Proof.
  split.
  - apply (proj1 (WriteAuthorizeError_outcome Sample.URLString Sample.ParseQuery
                    Sample.Encode Sample.CanonicalMIMEHeaderKey Sample.WriteJSON
                    Sample.ErrorToRFC6749Error {[ 0 := Sample.cb ]} Sample.rw0
                    Sample.arInvalid (errors_New ErrInvalidState))).
    reflexivity.
  - assert (Hu : ({[ 0 := Sample.cb ]} : gmap loc URL) !! 0 = Some Sample.cb)
      by reflexivity.
    destruct (proj2 (WriteAuthorizeError_outcome Sample.URLString Sample.ParseQuery
                       Sample.Encode Sample.CanonicalMIMEHeaderKey Sample.WriteJSON
                       Sample.ErrorToRFC6749Error {[ 0 := Sample.cb ]} Sample.rw0
                       Sample.ar0 (errors_New ErrInvalidState))
                0 Sample.cb eq_refl eq_refl Hu)
      as (query & u' & rw' & Hrun & Hu' & Herr & Hdesc & _ & Hloc & _ & Hcalls & _).
    exists query, u', rw'. split; [exact Hrun|].
    split; [rewrite Hu'; reflexivity|]. split; [exact Herr|].
    split; [exact Hdesc|]. split; [exact Hloc | exact Hcalls].
Defined.

(** The success writer on the sample instance: the response parameter
    lands on the redirect URI, whose new form is the Location. *)
Example WriteAuthorizeResponse_sample :
  WriteAuthorizeResponse Sample.URLString Sample.ParseQuery Sample.Encode
    Sample.CanonicalMIMEHeaderKey {[ 0 := Sample.cb ]} Sample.rw0 Sample.ar0
    {| GetHeader := {[ "Pragma" := ["no-cache"] ]};
       GetQuery := {[ "code" := ["xyz"] ]} |}
  = Some ({[ 0 := setRawQuery "code=xyz" Sample.cb ]},
          {| Header := {[ "Location" := ["https://app.example/cb?code=xyz"];
                          "Pragma" := ["no-cache"] ]};
             WriteHeaderCalls := [302%Z]; Body := [] |}).
Proof. vm_compute. reflexivity. Qed.

(** The error writer on the sample instance, redirect branch. *)
Example WriteAuthorizeError_sample :
  WriteAuthorizeError Sample.URLString Sample.ParseQuery Sample.Encode
    Sample.CanonicalMIMEHeaderKey Sample.WriteJSON Sample.ErrorToRFC6749Error
    {[ 0 := Sample.cb ]} Sample.rw0 Sample.ar0 (errors_New ErrInvalidState)
  = Some ({[ 0 := setRawQuery
                    "error=invalid_state&error_description=the state is missing or too short"
                    Sample.cb ]},
          {| Header :=
               {[ "Location" :=
                    ["https://app.example/cb?error=invalid_state&error_description=the state is missing or too short"] ]};
             WriteHeaderCalls := [302%Z]; Body := [] |}).
Proof. vm_compute. reflexivity. Qed.

(** ** Examples for the further properties *)

Lemma Match_resolved_is_registered_witness :
  exists uri,
    uri ∈ GetRedirectURIs Sample.c1 /\ Sample.Parse uri = Some Sample.cb.
Proof.
  destruct (Match_resolved_is_registered Sample.Parse Sample.URLString
              Sample.IsRequestURL "" Sample.c1 Sample.cb)
    as (uri & Hin & Hparse & _).
  - reflexivity.
  - exists uri. exact (conj Hin Hparse).
Defined.

Lemma Match_single_uri_explicit_or_omitted_witness :
  MatchRedirectURIWithClientRedirectURIs Sample.Parse Sample.URLString
    Sample.IsRequestURL "https://app.example/cb" Sample.c1
  = MatchRedirectURIWithClientRedirectURIs Sample.Parse Sample.URLString
      Sample.IsRequestURL "" Sample.c1.
Proof.
  apply Match_single_uri_explicit_or_omitted. reflexivity.
Defined.

Lemma NewAuthorizeRequest_success_fields_witness :
  exists request form client,
    NewAuthorizeRequest Sample.Parse Sample.URLString Sample.QueryUnescape
      Sample.IsRequestURL Sample.Request Sample.ParseForm unit unit
      (mkFosite _ _ _ Sample.store []) 3 (Sample.form "" "abcdefgh")
    = (Some request, None) /\
    Sample.ParseForm (Sample.form "" "abcdefgh") = Some form /\
    GetClient Sample.store (Values_Get form "client_id") = inl client /\
    Client_ request = Some client.
Proof.
  eexists. 
  match goal with
  | |- exists form client, ?run = (Some ?request, None) /\ _ =>
      assert (Hrun : run = (Some request, None)) by (vm_compute; reflexivity)
  end.
  destruct (NewAuthorizeRequest_success_fields Sample.Parse Sample.URLString
              Sample.QueryUnescape Sample.IsRequestURL Sample.Request
              Sample.ParseForm unit unit (mkFosite _ _ _ Sample.store []) 3
              (Sample.form "" "abcdefgh") _ Hrun)
    as (form & client & raw & uri & u & Hform & Hclient & _ & _ & _ & _ & Hreq).
  exists form, client. split; [exact Hrun|]. split; [exact Hform|].
  split; [exact Hclient|]. rewrite Hreq. reflexivity.
Defined.

Lemma NewAuthorizeRequest_tokens_witness :
  "a" <> "" /\ containsSpace "a" = false.
Proof.
  eapply (NewAuthorizeRequest_tokens Sample.Parse Sample.URLString
            Sample.QueryUnescape Sample.IsRequestURL Sample.Request
            Sample.ParseForm unit unit (mkFosite _ _ _ Sample.store []) 3
            (Sample.form "" "abcdefgh")).
  - vm_compute. reflexivity.
  - right. simpl. apply list_elem_of_here.
Defined.

Lemma NewAuthorizeRequest_missing_redirect_uri_witness :
  NewAuthorizeRequest Sample.Parse Sample.URLString Sample.QueryUnescape
    Sample.IsRequestURL Sample.Request Sample.ParseForm unit unit
    (mkFosite _ _ _ Sample.store []) 3
    (delete "redirect_uri" (Sample.form "" "abcdefgh"))
  = NewAuthorizeRequest Sample.Parse Sample.URLString Sample.QueryUnescape
      Sample.IsRequestURL Sample.Request Sample.ParseForm unit unit
      (mkFosite _ _ _ Sample.store []) 3
      (<["redirect_uri" := [""]]> (Sample.form "" "abcdefgh")).
Proof.
  apply (NewAuthorizeRequest_missing_redirect_uri Sample.Parse Sample.URLString
           Sample.QueryUnescape Sample.IsRequestURL Sample.Request
           Sample.ParseForm unit unit (mkFosite _ _ _ Sample.store []) 3
           _ _ (Sample.form "" "abcdefgh")); reflexivity.
Defined.

Lemma NewAuthorizeResponse_never_sentinel_witness :
  NewAuthorizeResponse Sample.Request unit unit
    (mkFosite _ _ _ Sample.store
       [Sample.TokenHandler]) tt Sample.ar0 ∅ tt
  = inr ErrNoResponseTypeHandlerFound /\
  ErrNoResponseTypeHandlerFound <> ErrInvalidResponseType.
Proof.
  assert (Hrun : NewAuthorizeResponse Sample.Request unit unit
                   (mkFosite _ _ _ Sample.store
                      [Sample.TokenHandler])
                   tt Sample.ar0 ∅ tt
                 = inr ErrNoResponseTypeHandlerFound) by reflexivity.
  split; [exact Hrun|].
  exact (NewAuthorizeResponse_never_sentinel _ _ _ _ _ _ _ _ _ Hrun).
Defined.

Lemma NewAuthorizeResponse_success_inversion_witness :
  None ∈ handlerCalls Sample.Request unit unit
           (mkFosite _ _ _ Sample.store
              [Sample.TokenHandler;
               Sample.GrantHandler]) tt Sample.ar0 ∅ tt.
Proof.
  destruct (NewAuthorizeResponse_success_inversion Sample.Request unit unit
              (mkFosite _ _ _ Sample.store
                 [Sample.TokenHandler;
                  Sample.GrantHandler]) tt Sample.ar0 ∅ tt
              {| GetHeader := ∅; GetQuery := {[ "code" := ["xyz"] ]} |})
    as (_ & _ & Hnil & _).
  - reflexivity.
  - exact Hnil.
Defined.

Lemma NewAuthorizeResponse_error_inversion_witness :
  (ErrOther "storage unavailable" = ErrNoResponseTypeHandlerFound /\
   handlerCalls Sample.Request unit unit
     (mkFosite _ _ _ Sample.store
        [Sample.GrantHandler; Sample.BrokenHandler; Sample.GrantHandler])
     tt Sample.ar0 ∅ tt
   = replicate 3 (Some ErrInvalidResponseType)) \/
  (ErrOther "storage unavailable" <> ErrInvalidResponseType /\
   exists i,
     handlerCalls Sample.Request unit unit
       (mkFosite _ _ _ Sample.store
          [Sample.GrantHandler; Sample.BrokenHandler; Sample.GrantHandler])
       tt Sample.ar0 ∅ tt !! i
     = Some (Some (ErrOther "storage unavailable")) /\
     length (handlerCalls Sample.Request unit unit
               (mkFosite _ _ _ Sample.store
                  [Sample.GrantHandler; Sample.BrokenHandler; Sample.GrantHandler])
               tt Sample.ar0 ∅ tt) = S i).
Proof.
  apply (NewAuthorizeResponse_error_inversion Sample.Request unit unit
           (mkFosite _ _ _ Sample.store
              [Sample.GrantHandler; Sample.BrokenHandler; Sample.GrantHandler])
           tt Sample.ar0 ∅ tt (ErrOther "storage unavailable")).
  reflexivity.
Defined.


Lemma WriteAuthorizeResponse_query_witness :
  exists heap' rw',
    WriteAuthorizeResponse Sample.URLString Sample.ParseQuery Sample.Encode
      Sample.CanonicalMIMEHeaderKey {[ 0 := Sample.cb ]} Sample.rw0 Sample.ar0
      {| GetHeader := ∅; GetQuery := {[ "scope" := ["a"; "b"] ]} |}
    = Some (heap', rw') /\
    heap' !! 0
    = Some {| Scheme := ""; Opaque := "https://app.example/cb"; User := "";
              Host := ""; Path := ""; RawQuery := "scope=a"; Fragment := "" |}.
Proof.
  assert (Hu : ({[ 0 := Sample.cb ]} : gmap loc URL) !! 0 = Some Sample.cb)
    by reflexivity.
  destruct (WriteAuthorizeResponse_query Sample.URLString Sample.ParseQuery
              Sample.Encode Sample.CanonicalMIMEHeaderKey {[ 0 := Sample.cb ]}
              Sample.rw0 Sample.ar0
              {| GetHeader := ∅; GetQuery := {[ "scope" := ["a"; "b"] ]} |}
              0 Sample.cb eq_refl Hu)
    as (q & heap' & rw' & Hwrite & _).
  exists heap', rw'. split; [exact Hwrite|].
  assert (Hrun : WriteAuthorizeResponse Sample.URLString Sample.ParseQuery
                   Sample.Encode Sample.CanonicalMIMEHeaderKey {[ 0 := Sample.cb ]}
                   Sample.rw0 Sample.ar0
                   {| GetHeader := ∅; GetQuery := {[ "scope" := ["a"; "b"] ]} |}
                 = Some ({[ 0 := setRawQuery "scope=a" Sample.cb ]},
                         {| Header := {[ "Location" := ["https://app.example/cb?scope=a"] ]};
                            WriteHeaderCalls := [302%Z]; Body := [] |}))
    by (vm_compute; reflexivity).
  rewrite Hrun in Hwrite. injection Hwrite as <- _. reflexivity.
Defined.

Lemma WriteAuthorizeResponse_headers_witness :
  default [] (Header
                {| Header := {[ "Location" := ["https://app.example/cb"];
                                "Pragma" := ["no-cache"] ]};
                   WriteHeaderCalls := [302%Z]; Body := [] |}
              !! Sample.CanonicalMIMEHeaderKey "Pragma")
  = (default [] (Header Sample.rw0 !! Sample.CanonicalMIMEHeaderKey "Pragma")
     ++ ["no-cache"])%list.
Proof.
  assert (Hrun : WriteAuthorizeResponse Sample.URLString Sample.ParseQuery
                   Sample.Encode Sample.CanonicalMIMEHeaderKey
                   {[ 0 := Sample.cb ]} Sample.rw0 Sample.ar0
                   {| GetHeader := {[ "Pragma" := ["no-cache"] ]}; GetQuery := ∅ |}
                 = Some ({[ 0 := Sample.cb ]},
                         {| Header := {[ "Location" := ["https://app.example/cb"];
                                         "Pragma" := ["no-cache"] ]};
                            WriteHeaderCalls := [302%Z]; Body := [] |}))
    by (vm_compute; reflexivity).
  assert (Hkey : ({[ "Pragma" := ["no-cache"] ]} : gmap string (list string))
                 !! "Pragma" = Some ["no-cache"]) by reflexivity.
  exact (proj1 (WriteAuthorizeResponse_headers Sample.URLString Sample.ParseQuery
                  Sample.Encode Sample.CanonicalMIMEHeaderKey _ _ _ _ _ _
                  (fun k1 k2 _ _ H => H) Hrun)
           "Pragma" ["no-cache"] Hkey ltac:(discriminate)).
Defined.

Lemma WriteAuthorizeResponse_location_witness :
  exists l u',
    GetRedirectURI Sample.ar0 = Some l /\
    ({[ 0 := setRawQuery "code=xyz" Sample.cb ]} : gmap loc URL) !! l = Some u' /\
    Header {| Header := {[ "Location" := ["https://app.example/cb?code=xyz"] ]};
              WriteHeaderCalls := [302%Z]; Body := [] |}
    !! Sample.CanonicalMIMEHeaderKey "Location" = Some [Sample.URLString u'].
Proof.
  destruct (WriteAuthorizeResponse_location Sample.URLString Sample.ParseQuery
              Sample.Encode Sample.CanonicalMIMEHeaderKey
              {[ 0 := Sample.cb ]} {[ 0 := setRawQuery "code=xyz" Sample.cb ]}
              {| Header := {[ "Location" := ["stale"] ]};
                 WriteHeaderCalls := []; Body := [] |}
              {| Header := {[ "Location" := ["https://app.example/cb?code=xyz"] ]};
                 WriteHeaderCalls := [302%Z]; Body := [] |}
              Sample.ar0
              {| GetHeader := ∅; GetQuery := {[ "code" := ["xyz"] ]} |})
    as (l & u' & Hl & Hu' & Hloc & _).
  - vm_compute. reflexivity.
  - exists l, u'. repeat split; assumption.
Defined.

Lemma WriteAuthorizeError_after_Response_witness :
  exists l u1 u2 heap2 rw2,
    GetRedirectURI Sample.ar0 = Some l /\
    ({[ 0 := setRawQuery "code=xyz" Sample.cb ]} : gmap loc URL) !! l = Some u1 /\
    WriteAuthorizeError Sample.URLString Sample.ParseQuery Sample.Encode
      Sample.CanonicalMIMEHeaderKey Sample.WriteJSON Sample.ErrorToRFC6749Error
      {[ 0 := setRawQuery "code=xyz" Sample.cb ]}
      {| Header := {[ "Location" := ["https://app.example/cb?code=xyz"] ]};
         WriteHeaderCalls := [302%Z]; Body := [] |}
      Sample.ar0 ErrInvalidRequest
    = Some (heap2, rw2) /\
    heap2 !! l = Some u2 /\
    Header rw2 !! Sample.CanonicalMIMEHeaderKey "Location"
    = Some [Sample.URLString u1; Sample.URLString u2].
Proof.
  destruct (WriteAuthorizeError_after_Response Sample.URLString Sample.ParseQuery
              Sample.Encode Sample.CanonicalMIMEHeaderKey Sample.WriteJSON
              Sample.ErrorToRFC6749Error
              {[ 0 := Sample.cb ]} {[ 0 := setRawQuery "code=xyz" Sample.cb ]}
              Sample.rw0
              {| Header := {[ "Location" := ["https://app.example/cb?code=xyz"] ]};
                 WriteHeaderCalls := [302%Z]; Body := [] |}
              Sample.ar0
              {| GetHeader := ∅; GetQuery := {[ "code" := ["xyz"] ]} |}
              ErrInvalidRequest)
    as (l & u1 & u2 & heap2 & rw2 & Hl & Hu1 & Hwrite & Hu2 & _ & Hloc & _).
  - reflexivity.
  - vm_compute. reflexivity.
  - exists l, u1, u2, heap2, rw2. repeat split; assumption.
Defined.
